(** * Wasabi distortion processor: the block pipeline and the preset bank

    A shallow embedding of [Source/PluginProcessor.cpp].

    Number model.  The processor computes on C++ [float] (IEEE 754
    binary32).  Two readings of that arithmetic are used.

    In the first a sample and a parameter value are real numbers ([R]) and
    every operation is exact.  It is the reading of the formulas, of the
    parameter store and of the editor, where the values are far inside the
    range of a float and only rounding is left out.  [std::tanh] and
    [std::sin] are the real functions [tanh] and [sin],
    [juce::MathConstants<float>::pi] is [PI].

    In the second (module [Float32]) a value is a finite real, an infinity
    or NaN.  A result whose magnitude reaches the overflow threshold of
    binary32 becomes an infinity, and infinities and NaN propagate as IEEE
    754 prescribes; the rounding of finite results is still left out.  The
    bounds on the waveshaper and on the sample stage are stated in this
    reading, since a large sample overflows inside the wavefolder and comes
    out as NaN.  Where the pre-gained sample has magnitude at most 10^12 and
    the parameters are in range the two readings agree ([distort32_agrees],
    [stage32_agrees]).

    A C++ [int] is a [Z]; no integer operation of the source can overflow.

    The framework (JUCE) is not part of the sources.  Its helpers used by the
    processor ([jlimit], the float to int conversions, the parameter classes
    with their interval of 0.01) are written out from their documented
    behaviour; its signal processing blocks (IIR filter, coefficient design,
    oversampler) are parameters of the pipeline section. *)

From Stdlib Require Import Reals Lra Lia ZArith List Bool.
From Stdlib Require String.
Import ListNotations.
Import String.StringSyntax.
Local Delimit Scope string_scope with string.

Local Open Scope R_scope.

(** ** Framework helpers *)

Module juce.

(** [juce::jlimit (lowerLimit, upperLimit, valueToConstrain)] on floats. *)
Definition jlimit (lowerLimit upperLimit valueToConstrain : R) : R :=
  if Rlt_dec valueToConstrain lowerLimit then lowerLimit
  else if Rlt_dec upperLimit valueToConstrain then upperLimit
  else valueToConstrain.

(** [juce::jlimit] on ints. *)
Definition jlimitInt (lowerLimit upperLimit valueToConstrain : Z) : Z :=
  if (valueToConstrain <? lowerLimit)%Z then lowerLimit
  else if (upperLimit <? valueToConstrain)%Z then upperLimit
  else valueToConstrain.

(** [static_cast<int>(x)]: the fractional part is discarded (truncation
    towards zero). *)
Definition static_cast_int (x : R) : Z :=
  if Rle_dec 0 x then Int_part x else (- Int_part (- x))%Z.

(** [juce::roundToInt (x)]: the nearest integer, a tie going to the even
    neighbour. *)
Definition roundToInt (x : R) : Z :=
  let n := Int_part x in
  let f := frac_part x in
  if Rlt_dec f (1 / 2) then n
  else if Rlt_dec (1 / 2) f then (n + 1)%Z
  else if Z.even n then n else (n + 1)%Z.

(** [NormalisableRange<float>::snapToLegalValue] for the range that
    [AudioParameterFloat (id, name, min, max, default)] builds: the interval
    is 0.01, the value goes to the nearest multiple of it counted from
    [start] ([std::floor] of the quotient plus 0.5) and then into the
    range. *)
Definition snapToLegalValue (start end_ v : R) : R :=
  let interval := 0.01 in
  let v := start + interval * IZR (Int_part ((v - start) / interval + 0.5)) in
  if Rle_dec v start then start
  else if Rle_dec end_ start then start
  else if Rle_dec end_ v then end_
  else v.

End juce.

(** ** The per-sample stage of [processBlock] *)

(** Lines 229-245: the pre-gain and the [switch (distortionType)].  [clean] is
    the sample after the noise gate.  A mode outside 0, 1, 2 matches no case
    and leaves [clean * preGain]. *)
Definition distort (clean : R) (distortionType : Z) (drive preGain : R) : R :=
  let distorted := clean * preGain in
  match distortionType with
  | 0%Z => tanh (distorted * (1 + drive)) * 0.9
  | 1%Z =>
      let distorted := tanh (distorted * 0.6) * 1.8 in
      juce.jlimit (- 0.9) 0.9 (distorted * (1 + drive * 2))
  | 2%Z =>
      let folded := distorted - 0.2 * distorted * distorted * distorted in
      let distorted := sin (folded * PI * (0.5 + drive * 0.5)) in
      juce.jlimit (- 0.9) 0.9 distorted
  | _ => distorted
  end.

(** Line 225: the noise gate factor of a sample. *)
Definition gateOf (clean : R) : R :=
  let threshold := 0.01 in
  if Rlt_dec (Rabs clean) threshold then 0.1 else 1.

(** Lines 221-248: the body of the sample loop, from the value read in
    [data[sample]] to the value written back. *)
Definition processSampleStage
    (drive range blend volume : R) (distortionType : Z) (sample : R) : R :=
  let clean := sample in
  let gate := gateOf clean in
  let clean := clean * gate in
  let preGain := range * 5 in
  let distorted := distort clean distortionType drive preGain in
  let distorted := distorted * (0.5 + volume * 1.5) in
  (distorted * blend + clean * (1 - blend)) * gate.

(** ** The per-sample stage with overflow *)

(** C++ [float] with its infinities and NaN.  Finite values are carried as
    exact reals; signed zeros are not distinguished (the stage divides by
    nothing). *)
Module Float32.

Declare Scope float_scope.

Inductive float : Type :=
  | Finite (r : R)
  | Infinity (negative : bool)
  | NaN.

(** 2^128 - 2^103, half way between [FLT_MAX] = 2^128 - 2^104 and 2^128:
    under round-to-nearest-even a result of this magnitude or more becomes
    an infinity, a smaller one a finite float. *)
Definition overflowThreshold : R := 340282356779733661637539395458142568448.

Definition isNegative (r : R) : bool := if Rlt_dec r 0 then true else false.

(** The float that an exact result becomes. *)
Definition round (r : R) : float :=
  if Rlt_dec (Rabs r) overflowThreshold then Finite r
  else Infinity (isNegative r).

(** [a * b]: an infinity times zero is NaN. *)
Definition mul (a b : float) : float :=
  match a, b with
  | NaN, _ | _, NaN => NaN
  | Finite x, Finite y => round (x * y)
  | Infinity s, Infinity t => Infinity (xorb s t)
  | Infinity s, Finite y | Finite y, Infinity s =>
      if Req_dec_T y 0 then NaN else Infinity (xorb s (isNegative y))
  end.

(** [a + b]: infinities of opposite signs add up to NaN. *)
Definition add (a b : float) : float :=
  match a, b with
  | NaN, _ | _, NaN => NaN
  | Finite x, Finite y => round (x + y)
  | Infinity s, Finite _ | Finite _, Infinity s => Infinity s
  | Infinity s, Infinity t => if Bool.eqb s t then Infinity s else NaN
  end.

Definition neg (a : float) : float :=
  match a with
  | Finite x => Finite (- x)
  | Infinity s => Infinity (negb s)
  | NaN => NaN
  end.

Definition sub (a b : float) : float := add a (neg b).

(** [a < b]: false as soon as one side is NaN. *)
Definition lt (a b : float) : bool :=
  match a, b with
  | NaN, _ | _, NaN => false
  | Finite x, Finite y => if Rlt_dec x y then true else false
  | Finite _, Infinity t => negb t
  | Infinity s, Finite _ => s
  | Infinity s, Infinity t => s && negb t
  end.

(** [std::abs], [std::tanh] and [std::sin]: the tanh of an infinity is 1 or
    -1, the sin of an infinity is NaN. *)
Definition abs (a : float) : float :=
  match a with
  | Finite x => Finite (Rabs x)
  | Infinity _ => Infinity false
  | NaN => NaN
  end.

Definition tanh (a : float) : float :=
  match a with
  | Finite x => Finite (Rtrigo_def.tanh x)
  | Infinity s => Finite (if s then -1 else 1)
  | NaN => NaN
  end.

Definition sin (a : float) : float :=
  match a with
  | Finite x => Finite (Rtrigo_def.sin x)
  | Infinity _ | NaN => NaN
  end.

Definition pi : float := Finite PI.

(** [juce::jlimit]: both comparisons are false on NaN, which comes back
    unchanged. *)
Definition jlimit (lowerLimit upperLimit valueToConstrain : float) : float :=
  if lt valueToConstrain lowerLimit then lowerLimit
  else if lt upperLimit valueToConstrain then upperLimit
  else valueToConstrain.

Local Coercion Finite : R >-> float.
Local Infix "*" := mul : float_scope.
Local Infix "+" := add : float_scope.
Local Infix "-" := sub : float_scope.
Local Open Scope float_scope.

(** Lines 229-245, operation by operation in the order C++ evaluates
    them. *)
Definition distort (clean : float) (distortionType : Z) (drive preGain : float)
  : float :=
  let distorted := clean * preGain in
  match distortionType with
  | 0%Z => tanh (distorted * (1 + drive)) * 0.9
  | 1%Z =>
      let distorted := tanh (distorted * 0.6) * 1.8 in
      jlimit (-0.9) 0.9 (distorted * (1 + drive * 2))
  | 2%Z =>
      let folded := distorted - 0.2 * distorted * distorted * distorted in
      let distorted := sin (folded * pi * (0.5 + drive * 0.5)) in
      jlimit (-0.9) 0.9 distorted
  | _ => distorted
  end.

(** Line 225. *)
Definition gateOf (clean : float) : float :=
  let threshold : float := 0.01 in
  if lt (abs clean) threshold then 0.1 else 1.

(** Lines 221-248. *)
Definition processSampleStage
    (drive range blend volume : float) (distortionType : Z) (sample : float)
  : float :=
  let clean := sample in
  let gate := gateOf clean in
  let clean := clean * gate in
  let preGain := range * 5 in
  let distorted := distort clean distortionType drive preGain in
  let distorted := distorted * (0.5 + volume * 1.5) in
  (distorted * blend + clean * (1 - blend)) * gate.

(** A float has magnitude at most [bound]: it is finite and within the
    bound; an infinity and NaN are not. *)
Definition magnitudeAtMost (bound : R) (v : float) : Prop :=
  match v with
  | Finite r => Rabs r <= bound
  | Infinity _ | NaN => False
  end.

Definition isFinite (v : float) : Prop :=
  match v with Finite _ => True | Infinity _ | NaN => False end.

End Float32.

(** ** The parameter store *)

(** The ten parameters of [createParameterLayout]: nine
    [juce::AudioParameterFloat] and one [juce::AudioParameterBool]. *)
Inductive FloatID : Set :=
  | Drive | Range | Blend | Volume | MidFreq | MidGain
  | HighPassFreq | LowPassFreq | DistortionType.

Inductive BoolID : Set := Bypass.

Inductive ParamID : Set :=
  | FloatParam (f : FloatID)
  | BoolParam (b : BoolID).

Module ParamIDs.
Definition drive := FloatParam Drive.
Definition range := FloatParam Range.
Definition blend := FloatParam Blend.
Definition volume := FloatParam Volume.
Definition midFreq := FloatParam MidFreq.
Definition midGain := FloatParam MidGain.
Definition highPassFreq := FloatParam HighPassFreq.
Definition lowPassFreq := FloatParam LowPassFreq.
Definition distortionType := FloatParam DistortionType.
Definition bypass := BoolParam Bypass.
End ParamIDs.

Definition FloatID_eqb (a b : FloatID) : bool :=
  match a, b with
  | Drive, Drive | Range, Range | Blend, Blend | Volume, Volume
  | MidFreq, MidFreq | MidGain, MidGain | HighPassFreq, HighPassFreq
  | LowPassFreq, LowPassFreq | DistortionType, DistortionType => true
  | _, _ => false
  end.

(** The declared range and default of a float parameter, as
    [createParameterLayout] adds them. *)
Record FloatLayout : Set := { minValue : R; maxValue : R; defaultValue : R }.

Definition createParameterLayout (f : FloatID) : FloatLayout :=
  match f with
  | Drive => {| minValue := 0; maxValue := 2; defaultValue := 0.5 |}
  | Range => {| minValue := 0; maxValue := 5; defaultValue := 1 |}
  | Blend => {| minValue := 0; maxValue := 1; defaultValue := 0.8 |}
  | Volume => {| minValue := 0; maxValue := 2; defaultValue := 1 |}
  | MidFreq => {| minValue := 500; maxValue := 2000; defaultValue := 1000 |}
  | MidGain => {| minValue := 0; maxValue := 12; defaultValue := 6 |}
  | HighPassFreq => {| minValue := 50; maxValue := 500; defaultValue := 100 |}
  | LowPassFreq =>
      {| minValue := 2000; maxValue := 12000; defaultValue := 6000 |}
  | DistortionType => {| minValue := 0; maxValue := 1; defaultValue := 0 |}
  end.

Definition bypassDefault : bool := false.

(** [juce::AudioProcessorValueTreeState parameters]: the current value of
    every parameter, and the property [currentProgram] of [parameters.state]
    ([None] while the property has never been set). *)
Record Parameters : Type := {
  floatValue : FloatID -> R;
  boolValue : BoolID -> bool;
  currentProgram : option Z
}.

(** The store a freshly constructed processor holds. *)
Definition initialParameters : Parameters :=
  {| floatValue := fun f => defaultValue (createParameterLayout f);
     boolValue := fun _ => bypassDefault;
     currentProgram := None |}.

(** [*parameters.getRawParameterValue (id)]: the denormalised value; a bool
    parameter reads as 1.0 or 0.0. *)
Definition getRawParameterValue (p : Parameters) (id : ParamID) : R :=
  match id with
  | FloatParam f => floatValue p f
  | BoolParam b => if boolValue p b then 1 else 0
  end.

(** [param->convertTo0to1 (value)] of a float parameter with a linear
    [NormalisableRange]: the value is snapped to a legal value of the range
    and mapped to its proportion of it. *)
Definition convertTo0to1 (f : FloatID) (value : R) : R :=
  let l := createParameterLayout f in
  let legal := juce.snapToLegalValue (minValue l) (maxValue l) value in
  juce.jlimit 0 1 ((legal - minValue l) / (maxValue l - minValue l)).

(** [convertFrom0to1], the way back, which [setValue] stores: the value the
    proportion stands for, snapped to a legal value. *)
Definition convertFrom0to1 (f : FloatID) (proportion : R) : R :=
  let l := createParameterLayout f in
  juce.snapToLegalValue (minValue l) (maxValue l)
    (minValue l + (maxValue l - minValue l) * juce.jlimit 0 1 proportion).

Definition setFloat (f : FloatID) (v : R) (p : Parameters) : Parameters :=
  {| floatValue := fun g => if FloatID_eqb g f then v else floatValue p g;
     boolValue := boolValue p;
     currentProgram := currentProgram p |}.

Definition setBool (b : BoolID) (v : bool) (p : Parameters) : Parameters :=
  {| floatValue := floatValue p;
     boolValue := fun _ => v;
     currentProgram := currentProgram p |}.

(** Lines 69-72, the lambda [setParamValue]:
    [param->setValueNotifyingHost (param->convertTo0to1 (value))].  Every id of
    [ParamIDs] names a parameter of the layout, so [getParameter] is never
    null.  A bool parameter is on from the proportion 0.5 upwards. *)
Definition setParamValue (id : ParamID) (value : R) (p : Parameters)
  : Parameters :=
  match id with
  | FloatParam f => setFloat f (convertFrom0to1 f (convertTo0to1 f value)) p
  | BoolParam b =>
      setBool b (if Rle_dec 0.5 (juce.jlimit 0 1 value) then true else false) p
  end.

(** ** The preset bank *)

Definition getNumPrograms : Z := 5.

(** Lines 59-62: the property, 0 when it is absent. *)
Definition getCurrentProgram (p : Parameters) : Z :=
  match currentProgram p with
  | Some i => i
  | None => 0%Z
  end.

(** The body of one [case] of the switch: nine [setParamValue] calls, in the
    order of the source. *)
Definition writeSnapshot
    (vDrive vRange vBlend vVolume vMidFreq vMidGain vHighPass vLowPass vType : R)
    (p : Parameters) : Parameters :=
  let p := setParamValue ParamIDs.drive vDrive p in
  let p := setParamValue ParamIDs.range vRange p in
  let p := setParamValue ParamIDs.blend vBlend p in
  let p := setParamValue ParamIDs.volume vVolume p in
  let p := setParamValue ParamIDs.midFreq vMidFreq p in
  let p := setParamValue ParamIDs.midGain vMidGain p in
  let p := setParamValue ParamIDs.highPassFreq vHighPass p in
  let p := setParamValue ParamIDs.lowPassFreq vLowPass p in
  setParamValue ParamIDs.distortionType vType p.

(** Lines 64-132.  The property receives the clamped index; the [switch]
    tests [index] itself and has no [default]. *)
Definition setCurrentProgram (index : Z) (p : Parameters) : Parameters :=
  let p :=
    {| floatValue := floatValue p;
       boolValue := boolValue p;
       currentProgram := Some (juce.jlimitInt 0 (getNumPrograms - 1) index) |} in
  match index with
  | 0%Z => writeSnapshot 1 2 0.9 1 1000 6 100 6000 0 p
  | 1%Z => writeSnapshot 1.5 3 0.95 1.2 800 8 150 5000 0.5 p
  | 2%Z => writeSnapshot 1.2 2.5 0.9 1.3 1200 7 120 7000 1 p
  | 3%Z => writeSnapshot 1.8 4 1 1 900 9 200 4500 0.5 p
  | 4%Z => writeSnapshot 0.8 1.5 0.85 1.1 1100 5 80 8000 0 p
  | _ => p
  end.

(** Line 200: the distortion mode of a block. *)
Definition decodeDistortionType (p : Parameters) : Z :=
  juce.static_cast_int (getRawParameterValue p ParamIDs.distortionType * 2).

(** [PluginEditor.cpp], lines 207 and 337: the mode the editor shows for the
    same parameter. *)
Definition editorDistortionType (p : Parameters) : Z :=
  juce.roundToInt (getRawParameterValue p ParamIDs.distortionType * 2).

(** ** The block pipeline *)

Section BlockPipeline.

(** The pipeline is written over the type of a sample and over the stage
    that the sample loop applies, so that it can be run on real samples and
    on symbolic ones.  The processor itself is the instance [Sample := R],
    [zero := 0], [stage := processSampleStage]. *)
Variable Sample : Type.
Variable zero : Sample.
Variable stage : R -> R -> R -> R -> Z -> Sample -> Sample.

(** [juce::dsp::IIR]: a coefficient set, the delay line of one mono filter,
    one step of the filter, and the three designs the processor asks for. *)
Variable Coefficients : Type.
Variable FilterState : Type.
Variable processSample :
  Coefficients -> FilterState -> Sample -> FilterState * Sample.
Variable makeHighPass : R -> R -> Coefficients.
Variable makeLowPass : R -> R -> R -> Coefficients.
Variable makePeakFilter : R -> R -> R -> R -> Coefficients.
Variable decibelsToGain : R -> R.

(** A buffer or block: one list of samples per channel. *)
Definition Block : Type := list (list Sample).

(** [juce::dsp::Oversampling]: its state, the way up (a block at the higher
    rate) and the way down (from the processed block into the buffer). *)
Variable Oversampling : Type.
Variable processSamplesUp : Oversampling -> Block -> Oversampling * Block.
Variable processSamplesDown :
  Oversampling -> Block -> Block -> Oversampling * Block.

(** [juce::dsp::ProcessorDuplicator<IIR::Filter, IIR::Coefficients>]: the
    shared coefficients [state] and one mono filter per channel. *)
Record ProcessorDuplicator : Type := {
  state : Coefficients;
  processors : list FilterState
}.

(** The members of [WasabiAudioProcessor] that [processBlock] works on. *)
Record Dsp : Type := {
  highPassFilter : ProcessorDuplicator;
  lowPassFilter : ProcessorDuplicator;
  midBoostFilter : ProcessorDuplicator;
  oversampler : Oversampling;
  sampleRate : R
}.

(** One mono filter over the samples of one channel. *)
Fixpoint filterChannel (c : Coefficients) (s : FilterState)
    (samples : list Sample) : FilterState * list Sample :=
  match samples with
  | [] => (s, [])
  | x :: rest =>
      let (s1, y) := processSample c s x in
      let (s2, ys) := filterChannel c s1 rest in
      (s2, y :: ys)
  end.

(** Every channel of the block through the mono filter of that channel.
    (A channel without a filter is left as it is.) *)
Fixpoint filterChannels (c : Coefficients) (fs : list FilterState)
    (block : Block) : list FilterState * Block :=
  match fs, block with
  | s :: fs', ch :: block' =>
      let (s1, ch1) := filterChannel c s ch in
      let (fs1, block1) := filterChannels c fs' block' in
      (s1 :: fs1, ch1 :: block1)
  | _, _ => (fs, block)
  end.

(** [filter.process (context)] with a context made of a whole block: the
    duplicator runs all the channels of the block. *)
Definition process (f : ProcessorDuplicator) (block : Block)
  : ProcessorDuplicator * Block :=
  let (fs, block1) := filterChannels (state f) (processors f) block in
  ({| state := state f; processors := fs |}, block1).

(** [*filter.state = *coefficients]. *)
Definition setCoefficients (c : Coefficients) (f : ProcessorDuplicator)
  : ProcessorDuplicator :=
  {| state := c; processors := processors f |}.

(** A change of the samples of one channel; no channel, no change. *)
Fixpoint onChannel (channel : nat) (g : list Sample -> list Sample)
    (block : Block) {struct block} : Block :=
  match block, channel with
  | [], _ => []
  | ch :: rest, O => g ch :: rest
  | ch :: rest, S k => ch :: onChannel k g rest
  end.

(** [buffer.clear (i, 0, buffer.getNumSamples ())]. *)
Definition clear (i : nat) (buffer : Block) : Block :=
  onChannel i (map (fun _ => zero)) buffer.

(** Lines 209-253: the body of the channel loop.  The context is built from
    [oversampledBlock], the three [process] calls see all its channels; the
    sample loop works on [data], the channel of this iteration. *)
Definition channelBody
    (drive range blend volume : R) (distortionType : Z)
    (channel : nat) (acc : Dsp * Block) : Dsp * Block :=
  let (d, block) := acc in
  let (hp, block) := process (highPassFilter d) block in
  let (mb, block) := process (midBoostFilter d) block in
  let block :=
    onChannel channel
      (map (stage drive range blend volume distortionType)) block in
  let (lp, block) := process (lowPassFilter d) block in
  ({| highPassFilter := hp; lowPassFilter := lp; midBoostFilter := mb;
      oversampler := oversampler d; sampleRate := sampleRate d |}, block).

(** Lines 175-258.  [numInputChannels] and [numOutputChannels] are the
    channel counts of the bus layout. *)
Definition processBlock (numInputChannels numOutputChannels : nat)
    (p : Parameters) (d : Dsp) (buffer : Block) : Dsp * Block :=
  if Rlt_dec 0.5 (getRawParameterValue p ParamIDs.bypass) then (d, buffer)
  else
    let buffer :=
      fold_left (fun b i => clear i b)
        (seq numInputChannels (numOutputChannels - numInputChannels))
        buffer in
    let drive := getRawParameterValue p ParamIDs.drive in
    let range := getRawParameterValue p ParamIDs.range in
    let blend := getRawParameterValue p ParamIDs.blend in
    let volume := getRawParameterValue p ParamIDs.volume in
    let midFreq := getRawParameterValue p ParamIDs.midFreq in
    let midGain := getRawParameterValue p ParamIDs.midGain in
    let highPassFreq := getRawParameterValue p ParamIDs.highPassFreq in
    let lowPassFreq := getRawParameterValue p ParamIDs.lowPassFreq in
    let distortionType := decodeDistortionType p in
    let hp :=
      setCoefficients (makeHighPass (sampleRate d) highPassFreq)
        (highPassFilter d) in
    let lp :=
      setCoefficients (makeLowPass (sampleRate d) lowPassFreq 0.7)
        (lowPassFilter d) in
    let mb :=
      setCoefficients
        (makePeakFilter (sampleRate d) midFreq 1 (decibelsToGain midGain))
        (midBoostFilter d) in
    let (os, oversampledBlock) := processSamplesUp (oversampler d) buffer in
    let d :=
      {| highPassFilter := hp; lowPassFilter := lp; midBoostFilter := mb;
         oversampler := os; sampleRate := sampleRate d |} in
    let (d, oversampledBlock) :=
      fold_left
        (fun acc channel =>
           channelBody drive range blend volume distortionType channel acc)
        (seq 0 numInputChannels) (d, oversampledBlock) in
    let (os, buffer) :=
      processSamplesDown (oversampler d) oversampledBlock buffer in
    ({| highPassFilter := highPassFilter d;
        lowPassFilter := lowPassFilter d;
        midBoostFilter := midBoostFilter d;
        oversampler := os; sampleRate := sampleRate d |}, buffer).

End BlockPipeline.

Arguments state {Coefficients FilterState} _.
Arguments processors {Coefficients FilterState} _.
Arguments highPassFilter {Coefficients FilterState Oversampling} _.
Arguments lowPassFilter {Coefficients FilterState Oversampling} _.
Arguments midBoostFilter {Coefficients FilterState Oversampling} _.
Arguments oversampler {Coefficients FilterState Oversampling} _.
Arguments sampleRate {Coefficients FilterState Oversampling} _.

(** [WasabiAudioProcessor::processBlock] on [float] samples: the pipeline
    with the per-sample stage of the source.  The blocks of the framework stay
    parameters. *)
Definition WasabiAudioProcessor_processBlock :=
  processBlock R 0 processSampleStage.

(** ** A symbolic run of the pipeline

    Samples are terms that record, innermost first, every stage a sample has
    been through.  The filters are memoryless and tag the sample, the
    oversampler hands the block over unchanged; the control flow is the one of
    [processBlock]. *)

Module Trace.

Inductive Sample : Set :=
  | Input (channel index : nat)
  | Silence
  | HighPass (x : Sample)
  | MidBoost (x : Sample)
  | Distort (x : Sample)
  | LowPass (x : Sample).

Inductive Coefficients : Set := HighPassCoefs | PeakCoefs | LowPassCoefs.

Definition processSample (c : Coefficients) (s : unit) (x : Sample)
  : unit * Sample :=
  (s, match c with
      | HighPassCoefs => HighPass x
      | PeakCoefs => MidBoost x
      | LowPassCoefs => LowPass x
      end).

Definition run :=
  processBlock Sample Silence (fun _ _ _ _ _ => Distort)
    Coefficients unit processSample
    (fun _ _ => HighPassCoefs) (fun _ _ _ => LowPassCoefs)
    (fun _ _ _ _ => PeakCoefs) (fun g => g)
    unit (fun os b => (os, b)) (fun os b _ => (os, b)).

(** The members after [prepareToPlay] for [channels] output channels: a
    mono filter per channel in each duplicator. *)
Definition prepared (channels : nat) : Dsp Coefficients unit unit :=
  let dup c := {| state := c; processors := repeat tt channels |} in
  {| highPassFilter := dup HighPassCoefs;
     lowPassFilter := dup LowPassCoefs;
     midBoostFilter := dup PeakCoefs;
     oversampler := tt;
     sampleRate := 44100 |}.

(** A buffer of [channels] channels with one input sample each. *)
Definition inputs (channels : nat) : list (list Sample) :=
  map (fun c => [Input c 0]) (seq 0 channels).

(** What one pass through the four stages, in order, makes of a sample. *)
Definition once (x : Sample) : Sample :=
  LowPass (Distort (MidBoost (HighPass x))).

(** How often a high-pass section has been applied to a sample. *)
Fixpoint countHighPass (x : Sample) : nat :=
  match x with
  | Input _ _ | Silence => 0
  | HighPass y => S (countHighPass y)
  | MidBoost y | Distort y | LowPass y => countHighPass y
  end.

(** The tag a filter with coefficients [c] puts on a sample. *)
Definition tag (c : Coefficients) (x : Sample) : Sample :=
  snd (processSample c tt x).

(** Every sample of the block has been high-passed [n] times. *)
Definition highPassCountIs (n : nat) (block : list (list Sample)) : Prop :=
  Forall (Forall (fun x => countHighPass x = n)) block.

End Trace.

(** ** The waveshaper and the mix as the specification words them *)





(** Specification 4.2: the gate factor, 0.1 below the threshold and 1.0
    otherwise. *)
Definition gateFactor_spec (x : R) : R :=
  if Rlt_dec (Rabs x) 0.01 then 0.1 else 1.

(** Specification 4.2: the final per-sample output, from the distorted value,
    the gated clean value and the gate factor. *)
Definition mix_spec (distorted cleanGated volume blend gate : R) : R :=
  (distorted * (0.5 + 1.5 * volume) * blend + cleanGated * (1 - blend)) * gate.

(** Specification 3: [round (value * 2)], the nearest integer (a tie, which
    the claims never meet, away from zero). *)
Definition round_spec (x : R) : Z :=
  if Rle_dec 0 x then Int_part (x + 1 / 2) else (- Int_part (- x + 1 / 2))%Z.

(** ** Program names and bus layouts *)

(** Line 136: the static array [names]. *)
Definition programNames : list String.string :=
  ["Wasabi Warfare"; "Up Your Nose"; "Sushi Roll"; "Soy Sauce";
   "Soba"]%string.

(** Lines 134-138: the name of a program, the empty string for an index
    outside the array. *)
Definition getProgramName (index : Z) : String.string :=
  if ((0 <=? index)%Z && (index <? getNumPrograms)%Z)%bool
  then nth (Z.to_nat index) programNames String.EmptyString
  else String.EmptyString.

(** [juce::AudioChannelSet]: a set of channel types, kept as the bit mask of
    their codes (left 1, right 2, centre 3); [size] counts the channels. *)
Module AudioChannelSet.

Definition left : N := 1.
Definition right : N := 2.
Definition centre : N := 3.

Definition mono : N := N.shiftl 1 centre.
Definition stereo : N := N.lor (N.shiftl 1 left) (N.shiftl 1 right).

Fixpoint countBits (p : positive) : nat :=
  match p with
  | xH => 1
  | xO q => countBits q
  | xI q => S (countBits q)
  end.

Definition size (s : N) : nat :=
  match s with
  | N0 => 0
  | Npos p => countBits p
  end.

End AudioChannelSet.

(** The main buses of a [BusesLayout]. *)
Record BusesLayout : Set := {
  mainInputChannelSet : N;
  mainOutputChannelSet : N
}.

(** Lines 161-173.  [JucePlugin_IsSynth] is a macro of the project
    configuration, taken as an argument. *)
Definition isBusesLayoutSupported (JucePlugin_IsSynth : bool)
    (layouts : BusesLayout) : bool :=
  if (negb (N.eqb (mainOutputChannelSet layouts) AudioChannelSet.mono)
      && negb (N.eqb (mainOutputChannelSet layouts) AudioChannelSet.stereo))%bool
  then false
  else if (negb JucePlugin_IsSynth
           && negb (N.eqb (mainOutputChannelSet layouts)
                      (mainInputChannelSet layouts)))%bool
  then false
  else true.

(** [getTotalNumInputChannels] and [getTotalNumOutputChannels] of a
    processor with one input and one output bus. *)
Definition getTotalNumInputChannels (layouts : BusesLayout) : nat :=
  AudioChannelSet.size (mainInputChannelSet layouts).

Definition getTotalNumOutputChannels (layouts : BusesLayout) : nat :=
  AudioChannelSet.size (mainOutputChannelSet layouts).

(** ** The phases of [processBlock] by name *)

Section BlockPhases.

Variable Sample : Type.
Variable zero : Sample.
Variable stage : R -> R -> R -> R -> Z -> Sample -> Sample.
Variable Coefficients : Type.
Variable FilterState : Type.
Variable processSample :
  Coefficients -> FilterState -> Sample -> FilterState * Sample.
Variable Oversampling : Type.

(** Lines 188-189: the loop that clears the output channels beyond the
    input channels. *)
Definition clearUnusedOutputs (numInputChannels numOutputChannels : nat)
    (buffer : Block Sample) : Block Sample :=
  fold_left (fun b i => clear Sample zero i b)
    (seq numInputChannels (numOutputChannels - numInputChannels)) buffer.

(** Lines 209-253: the loop over the input channels. *)
Definition channelLoop (drive range blend volume : R) (distortionType : Z)
    (numInputChannels : nat)
    (acc : Dsp Coefficients FilterState Oversampling * Block Sample)
  : Dsp Coefficients FilterState Oversampling * Block Sample :=
  fold_left
    (fun acc channel =>
       channelBody Sample stage Coefficients FilterState processSample
         Oversampling drive range blend volume distortionType channel acc)
    (seq 0 numInputChannels) acc.

End BlockPhases.

(** ** The editor *)

Module Editor.

(** [param->setValueNotifyingHost (newValue)]: the parameter takes the value
    that the proportion [newValue] stands for. *)
Definition setValueNotifyingHost (id : ParamID) (newValue : R)
    (p : Parameters) : Parameters :=
  match id with
  | FloatParam f => setFloat f (convertFrom0to1 f newValue) p
  | BoolParam b =>
      setBool b (if Rle_dec 0.5 (juce.jlimit 0 1 newValue) then true else false)
        p
  end.

(** A [juce::Slider] under a [SliderAttachment]: its value and its range.
    The attachment gives the slider the legal values of its parameter, so
    [setValue] snaps the value to the 0.01 interval and into the range. *)
Record Slider : Type := { value : R; minimum : R; maximum : R }.

Definition setValue (newValue : R) (s : Slider) : Slider :=
  {| value := juce.snapToLegalValue (minimum s) (maximum s) newValue;
     minimum := minimum s;
     maximum := maximum s |}.

(** A slider under a [SliderAttachment] to the float parameter [f]: it has
    the range of the parameter and shows its value, and a value set on the
    slider goes to the parameter. *)
Definition attachedSlider (f : FloatID) (p : Parameters) : Slider :=
  {| value := floatValue p f;
     minimum := minValue (createParameterLayout f);
     maximum := maxValue (createParameterLayout f) |}.

Definition sliderValueChanged (f : FloatID) (s : Slider) (p : Parameters)
  : Parameters :=
  setParamValue (FloatParam f) (value s) p.

(** The members of [XYPad]. *)
Record XYPad : Type := { midFreqSlider : Slider; midGainSlider : Slider }.

(** Lines 371-382: the constructor attaches the two sliders. *)
Definition newXYPad (p : Parameters) : XYPad :=
  {| midFreqSlider := attachedSlider MidFreq p;
     midGainSlider := attachedSlider MidGain p |}.

(** Lines 422-427, [XYPad::updateSliders]. *)
Definition updateSliders (freq gain : R) (acc : XYPad * Parameters)
  : XYPad * Parameters :=
  let (pad, p) := acc in
  let fs := setValue freq (midFreqSlider pad) in
  let p := sliderValueChanged MidFreq fs p in
  let gs := setValue gain (midGainSlider pad) in
  let p := sliderValueChanged MidGain gs p in
  ({| midFreqSlider := fs; midGainSlider := gs |}, p).

(** Lines 429-441, [XYPad::updatePosition], for a pad of [width] by [height]
    pixels and a mouse event at [(ex, ey)].  [bounds] is the local rectangle
    reduced by 5 on every side: origin (5, 5), and an extent that [reduced]
    does not let fall below 0. *)
Definition updatePosition (width height ex ey : Z) (acc : XYPad * Parameters)
  : XYPad * Parameters :=
  let (pad, p) := acc in
  let boundsX := 5%Z in
  let boundsY := 5%Z in
  let boundsWidth := Z.max 0 (width - 5 * 2) in
  let boundsHeight := Z.max 0 (height - 5 * 2) in
  if ((boundsWidth <=? 0)%Z || (boundsHeight <=? 0)%Z)%bool then (pad, p)
  else
    let x := juce.jlimit 0 1 (IZR (ex - boundsX) / IZR boundsWidth) in
    let y :=
      juce.jlimit 0 1
        (IZR (boundsHeight - (ey - boundsY)) / IZR boundsHeight) in
    let freq :=
      minimum (midFreqSlider pad)
      + x * (maximum (midFreqSlider pad) - minimum (midFreqSlider pad)) in
    let gain :=
      minimum (midGainSlider pad)
      + y * (maximum (midGainSlider pad) - minimum (midGainSlider pad)) in
    let fs := setValue freq (midFreqSlider pad) in
    let p := sliderValueChanged MidFreq fs p in
    let gs := setValue gain (midGainSlider pad) in
    let p := sliderValueChanged MidGain gs p in
    ({| midFreqSlider := fs; midGainSlider := gs |}, p).

(** Lines 384-396, [XYPad::paint]: the centre of the dot, nothing when the
    local rectangle is empty. *)
Definition dotCentre (width height : Z) (pad : XYPad) : option (R * R) :=
  if ((width <=? 0)%Z || (height <=? 0)%Z)%bool then None
  else
    let x :=
      (value (midFreqSlider pad) - minimum (midFreqSlider pad))
      / (maximum (midFreqSlider pad) - minimum (midFreqSlider pad))
      * (IZR width - 10) + 5 in
    let y :=
      (maximum (midGainSlider pad) - value (midGainSlider pad))
      / (maximum (midGainSlider pad) - minimum (midGainSlider pad))
      * (IZR height - 10) + 5 in
    Some (x, y).

(** The members of the editor that its callbacks read and write: the flag,
    the toggle states of the three distortion buttons and of the bypass
    button, the selected id of the preset box, and the pad (null until
    [initializeComponents] has run). *)
Record State : Type := {
  componentsInitialized : bool;
  waButton : bool;
  saButton : bool;
  biButton : bool;
  bypassButton : bool;
  presetBox : Z;
  xyPad : option XYPad
}.

Definition setDistortionButtons (type : Z) (e : State) : State :=
  {| componentsInitialized := componentsInitialized e;
     waButton := (type =? 0)%Z;
     saButton := (type =? 1)%Z;
     biButton := (type =? 2)%Z;
     bypassButton := bypassButton e;
     presetBox := presetBox e;
     xyPad := xyPad e |}.

(** Lines 357-369. *)
Definition updateDistortionType (type : Z) (acc : State * Parameters)
  : State * Parameters :=
  let (e, p) := acc in
  if componentsInitialized e then
    let p :=
      setValueNotifyingHost ParamIDs.distortionType (IZR type / 2) p in
    (setDistortionButtons type e, p)
  else (e, p).

(** A click on the bypass button: the button toggles, then lines 198-201
    run. *)
Definition bypassButtonClicked (acc : State * Parameters)
  : State * Parameters :=
  let (e, p) := acc in
  let on := negb (bypassButton e) in
  let e :=
    {| componentsInitialized := componentsInitialized e;
       waButton := waButton e; saButton := saButton e; biButton := biButton e;
       bypassButton := on;
       presetBox := presetBox e;
       xyPad := xyPad e |} in
  (e, setValueNotifyingHost ParamIDs.bypass (if on then 1 else 0) p).

(** Lines 327-355, for the preset box with [selectedId] chosen. *)
Definition comboBoxChanged (selectedId : Z) (acc : State * Parameters)
  : State * Parameters :=
  let (e, p) := acc in
  let p := setCurrentProgram (selectedId - 1) p in
  let box := (getCurrentProgram p + 1)%Z in
  let type := editorDistortionType p in
  let e := setDistortionButtons type e in
  let bypassOn :=
    if Rlt_dec 0.5 (getRawParameterValue p ParamIDs.bypass)
    then true else false in
  let padAndP :=
    match xyPad e with
    | Some pad =>
        let (pad, p) :=
          updateSliders (getRawParameterValue p ParamIDs.midFreq)
            (getRawParameterValue p ParamIDs.midGain) (pad, p) in
        (Some pad, p)
    | None => (None, p)
    end in
  ({| componentsInitialized := componentsInitialized e;
      waButton := waButton e; saButton := saButton e; biButton := biButton e;
      bypassButton := bypassOn;
      presetBox := box;
      xyPad := fst padAndP |}, snd padAndP).

(** Lines 292-302 of [resized]: the rectangles (x, y, width, height) of the
    slider and of the label with index [i]. *)
Definition sliderBounds (i : nat) : Z * Z * Z * Z :=
  let knobSize := 50%Z in
  let spacing := 20%Z in
  let padding := 10%Z in
  let row := Nat.div i 3 in
  let col := Nat.modulo i 3 in
  let x := (padding + 40 + Z.of_nat col * (knobSize + spacing))%Z in
  let y := (70 + Z.of_nat row * (knobSize + 50))%Z in
  (x, (y + 15)%Z, knobSize, (knobSize + 20)%Z).

Definition labelBounds (i : nat) : Z * Z * Z * Z :=
  let knobSize := 50%Z in
  let spacing := 20%Z in
  let padding := 10%Z in
  let row := Nat.div i 3 in
  let col := Nat.modulo i 3 in
  let x := (padding + 40 + Z.of_nat col * (knobSize + spacing))%Z in
  let y := (70 + Z.of_nat row * (knobSize + 50))%Z in
  ((x - 10)%Z, (y - 10)%Z, (knobSize + 40)%Z, 25%Z).

(** Lines 309-313 of [resized]: the rectangles of the three distortion
    buttons in an editor [width] pixels wide. *)
Definition distortionButtonBounds (width : Z) (k : Z) : Z * Z * Z * Z :=
  let buttonSize := 60%Z in
  let totalWidth := (3 * buttonSize + 2 * 5)%Z in
  let offset := Z.quot (width - totalWidth) 2 in
  match k with
  | 0%Z => (offset, 280%Z, buttonSize, buttonSize)
  | 1%Z => ((offset + buttonSize + 5)%Z, 280%Z, buttonSize, buttonSize)
  | _ => ((offset + 2 * buttonSize + 10)%Z, 280%Z, buttonSize, buttonSize)
  end.

(** Two rectangles (x, y, width, height) share a pixel. *)
Definition intersects (a b : Z * Z * Z * Z) : bool :=
  let '(ax, ay, aw, ah) := a in
  let '(bx, by_, bw, bh) := b in
  ((ax <? bx + bw)%Z && (bx <? ax + aw)%Z
   && (ay <? by_ + bh)%Z && (by_ <? ay + ah)%Z)%bool.

(** Lines 30-35 and 47-48 of [drawRotarySlider]: the angle of the thumb and
    the centre of the thumb ellipse, for the rectangle (x, y, width, height)
    of the slider. *)
Definition thumbAngle (sliderPos startAngle endAngle : R) : R :=
  startAngle + sliderPos * (endAngle - startAngle).

Definition thumbCentre (x y width height : Z)
    (sliderPos startAngle endAngle : R) : R * R :=
  let boundsX := IZR x + 4 in
  let boundsY := IZR y + 4 in
  let boundsW := Rmax 0 (IZR width - 4 * 2) in
  let boundsH := Rmax 0 (IZR height - 4 * 2) in
  let radius := Rmin boundsW boundsH * 0.5 in
  let centreX := boundsX + boundsW * 0.5 in
  let centreY := boundsY + boundsH * 0.5 in
  let angle := thumbAngle sliderPos startAngle endAngle in
  let thumbSize := 8 in
  let ex := centreX + radius * cos (angle - PI / 2) - thumbSize * 0.5 in
  let ey := centreY + radius * sin (angle - PI / 2) - thumbSize * 0.5 in
  (ex + thumbSize / 2, ey + thumbSize / 2).

End Editor.

(** ** Predicates and tables used to state properties *)

(** A value on the 0.01 grid counted from [lo]. *)
Definition onGrid (lo v : R) : Prop := exists k : Z, v = lo + 0.01 * IZR k.

(** Every float parameter holds a value of its declared range. *)
Definition inRange (p : Parameters) : Prop :=
  forall f,
    minValue (createParameterLayout f) <= floatValue p f
    <= maxValue (createParameterLayout f).

(** Lines 76-130: the constant that the [case] of [index] passes to
    [setParamValue] for the parameter [f]. *)
Definition presetConstant (index : Z) (f : FloatID) : option R :=
  let row (a b c d e g h i j : R) :=
    Some match f with
         | Drive => a | Range => b | Blend => c | Volume => d
         | MidFreq => e | MidGain => g | HighPassFreq => h
         | LowPassFreq => i | DistortionType => j
         end in
  match index with
  | 0%Z => row 1 2 0.9 1 1000 6 100 6000 0
  | 1%Z => row 1.5 3 0.95 1.2 800 8 150 5000 0.5
  | 2%Z => row 1.2 2.5 0.9 1.3 1200 7 120 7000 1
  | 3%Z => row 1.8 4 1 1 900 9 200 4500 0.5
  | 4%Z => row 0.8 1.5 0.85 1.1 1100 5 80 8000 0
  | _ => None
  end.

(** The two sliders of a pad have the ranges their attachments give them. *)
Definition padAttached (pad : Editor.XYPad) : Prop :=
  Editor.minimum (Editor.midFreqSlider pad) =
    minValue (createParameterLayout MidFreq) /\
  Editor.maximum (Editor.midFreqSlider pad) =
    maxValue (createParameterLayout MidFreq) /\
  Editor.minimum (Editor.midGainSlider pad) =
    minValue (createParameterLayout MidGain) /\
  Editor.maximum (Editor.midGainSlider pad) =
    maxValue (createParameterLayout MidGain).

(** The four stages a symbolic sample can have been through, and how often
    a sample has been through one of them. *)
Inductive StageTag : Set := InHighPass | InMidBoost | InDistort | InLowPass.

Fixpoint stageCount (t : StageTag) (x : Trace.Sample) : nat :=
  match x with
  | Trace.Input _ _ | Trace.Silence => 0
  | Trace.HighPass y =>
      match t with InHighPass => S (stageCount t y) | _ => stageCount t y end
  | Trace.MidBoost y =>
      match t with InMidBoost => S (stageCount t y) | _ => stageCount t y end
  | Trace.Distort y =>
      match t with InDistort => S (stageCount t y) | _ => stageCount t y end
  | Trace.LowPass y =>
      match t with InLowPass => S (stageCount t y) | _ => stageCount t y end
  end.

(** A sample that has been filtered [k] times by each section and distorted
    [m] times. *)
Definition stageCounts (k m : nat) (x : Trace.Sample) : Prop :=
  stageCount InHighPass x = k /\ stageCount InMidBoost x = k /\
  stageCount InLowPass x = k /\ stageCount InDistort x = m.

(** The channels of a block after [k] iterations of the loop: [k] passes
    through each filter, and one distortion for the channels below [k]. *)
Definition loopInvariant (k : nat) (block : list (list Trace.Sample)) : Prop :=
  forall i ch,
    nth_error block i = Some ch ->
    Forall (stageCounts k (if Nat.ltb i k then 1 else 0)) ch.

(** * Properties *)

(** ** Clamping *)

Lemma jlimit_inside (lo hi v : R) :
  lo <= v <= hi -> juce.jlimit lo hi v = v.
Proof.
  intros [Hlo Hhi]. unfold juce.jlimit.
  destruct (Rlt_dec v lo); [lra|].
  destruct (Rlt_dec hi v); [lra|reflexivity].
Qed.

Lemma jlimit_bounds (lo hi v : R) :
  lo <= hi -> lo <= juce.jlimit lo hi v <= hi.
Proof.
  intros Hle. unfold juce.jlimit.
  destruct (Rlt_dec v lo); [lra|].
  destruct (Rlt_dec hi v); lra.
Qed.


Lemma jlimitInt_spec (lo hi v : Z) :
  (lo <= hi)%Z -> juce.jlimitInt lo hi v = Z.max lo (Z.min hi v).
Proof.
  intros Hle. unfold juce.jlimitInt.
  destruct (Z.ltb_spec v lo); [lia|].
  destruct (Z.ltb_spec hi v); lia.
Qed.

(** ** Snapping to the interval *)

Lemma snap_bounds (lo hi v : R) :
  lo <= hi -> lo <= juce.snapToLegalValue lo hi v <= hi.
Proof.
  intros H. unfold juce.snapToLegalValue. cbv zeta.
  destruct (Rle_dec _ lo); [lra|].
  destruct (Rle_dec hi lo); [lra|].
  destruct (Rle_dec hi _); lra.
Qed.

Lemma Int_part_half (k : Z) : Int_part (IZR k + 0.5) = k.
Proof. symmetry. apply Int_part_spec. lra. Qed.

Lemma snap_grid (lo hi : R) (k : Z) :
  lo < hi -> lo <= lo + 0.01 * IZR k <= hi ->
  juce.snapToLegalValue lo hi (lo + 0.01 * IZR k) = lo + 0.01 * IZR k.
Proof.
  intros Hlt Hk. unfold juce.snapToLegalValue. cbv zeta.
  replace ((lo + 0.01 * IZR k - lo) / 0.01 + 0.5) with (IZR k + 0.5)
    by (field; lra).
  rewrite Int_part_half.
  destruct (Rle_dec _ lo); [lra|].
  destruct (Rle_dec hi lo); [lra|].
  destruct (Rle_dec hi _); lra.
Qed.

Lemma snap_on_grid (lo hi v : R) :
  lo < hi -> lo <= v <= hi -> onGrid lo v ->
  juce.snapToLegalValue lo hi v = v.
Proof.
  intros Hlt Hv [k ->]. apply snap_grid; assumption.
Qed.

Lemma snap_result_on_grid (lo hi v : R) :
  onGrid lo hi -> onGrid lo (juce.snapToLegalValue lo hi v).
Proof.
  intros Hhi. unfold juce.snapToLegalValue. cbv zeta.
  destruct (Rle_dec _ lo); [exists 0%Z; lra|].
  destruct (Rle_dec hi lo); [exists 0%Z; lra|].
  destruct (Rle_dec hi _); [exact Hhi|].
  eexists. reflexivity.
Qed.

Lemma snap_idempotent (lo hi v : R) :
  lo < hi -> onGrid lo hi ->
  juce.snapToLegalValue lo hi (juce.snapToLegalValue lo hi v) =
  juce.snapToLegalValue lo hi v.
Proof.
  intros Hlt Hhi. apply snap_on_grid; [exact Hlt| |].
  - apply snap_bounds. lra.
  - apply snap_result_on_grid. exact Hhi.
Qed.

(** A value of the range moves by at most half the interval. *)
Lemma snap_near (lo hi v : R) :
  lo < hi -> lo <= v <= hi ->
  Rabs (juce.snapToLegalValue lo hi v - v) <= 0.005.
Proof.
  intros Hlt Hv. unfold juce.snapToLegalValue. cbv zeta.
  pose proof (base_Int_part ((v - lo) / 0.01 + 0.5)) as [H1 H2].
  set (k := IZR (Int_part ((v - lo) / 0.01 + 0.5))) in *.
  assert (Hq : (v - lo) / 0.01 = (v - lo) * 100) by lra.
  rewrite Hq in H1, H2.
  destruct (Rle_dec _ lo); [apply Rabs_le; lra|].
  destruct (Rle_dec hi lo); [lra|].
  destruct (Rle_dec hi _); apply Rabs_le; lra.
Qed.

(** ** The parameter store *)

Lemma layout_nonempty (f : FloatID) :
  minValue (createParameterLayout f) < maxValue (createParameterLayout f).
Proof. destruct f; simpl; lra. Qed.

Ltac hundredths v :=
  lazymatch v with
  | IZR ?z => eval compute in (z * 100)%Z
  | Q2R (QArith_base.Qmake ?a ?b) => eval compute in (a * 100 / Zpos b)%Z
  end.

(** A literal that is a multiple of 0.01 is on the grid of a literal start
    that is one too. *)
Ltac grid :=
  lazymatch goal with
  | |- onGrid ?lo ?v =>
      let n := hundredths v in
      let m := hundredths lo in
      let k := eval compute in (n - m)%Z in
      exists k; lra
  end.

(** The end of every declared range is on the grid of its start. *)
Lemma layout_grid (f : FloatID) :
  onGrid (minValue (createParameterLayout f))
    (maxValue (createParameterLayout f)).
Proof.
  destruct f; cbn [minValue maxValue createParameterLayout]; grid.
Qed.

(** Normalising a value and storing it gives the value snapped to a legal
    value of the declared range. *)
Lemma convert_roundtrip (f : FloatID) (v : R) :
  convertFrom0to1 f (convertTo0to1 f v) =
  juce.snapToLegalValue (minValue (createParameterLayout f))
    (maxValue (createParameterLayout f)) v.
Proof.
  unfold convertFrom0to1, convertTo0to1. cbv zeta.
  pose proof (layout_nonempty f) as Hne.
  pose proof (layout_grid f) as Hg.
  set (lo := minValue (createParameterLayout f)) in *.
  set (hi := maxValue (createParameterLayout f)) in *.
  pose proof (snap_bounds lo hi v (Rlt_le _ _ Hne)) as Hb.
  pose proof (snap_idempotent lo hi v Hne Hg) as Hi.
  set (w := juce.snapToLegalValue lo hi v) in *.
  assert (Hp : 0 <= (w - lo) / (hi - lo) <= 1).
  { split.
    - apply Rmult_le_pos; [lra|]. apply Rlt_le, Rinv_0_lt_compat. lra.
    - apply (Rmult_le_reg_r (hi - lo)); [lra|].
      unfold Rdiv. rewrite Rmult_assoc, Rinv_l by lra. lra. }
  rewrite (jlimit_inside 0 1 ((w - lo) / (hi - lo))) by exact Hp.
  rewrite (jlimit_inside 0 1) by exact Hp.
  replace (lo + (hi - lo) * ((w - lo) / (hi - lo))) with w by (field; lra).
  exact Hi.
Qed.

Lemma convert_roundtrip_inside (f : FloatID) (v : R) :
  minValue (createParameterLayout f) <= v <= maxValue (createParameterLayout f) ->
  onGrid (minValue (createParameterLayout f)) v ->
  convertFrom0to1 f (convertTo0to1 f v) = v.
Proof.
  intros Hv Hg. rewrite convert_roundtrip.
  apply snap_on_grid; [apply layout_nonempty|exact Hv|exact Hg].
Qed.

Lemma FloatID_eqb_refl (f : FloatID) : FloatID_eqb f f = true.
Proof. destruct f; reflexivity. Qed.

Lemma setParamValue_float_same (f : FloatID) (v : R) (p : Parameters) :
  floatValue (setParamValue (FloatParam f) v p) f =
  convertFrom0to1 f (convertTo0to1 f v).
Proof. simpl. rewrite FloatID_eqb_refl. reflexivity. Qed.

Lemma setParamValue_float_other (f g : FloatID) (v : R) (p : Parameters) :
  FloatID_eqb g f = false ->
  floatValue (setParamValue (FloatParam f) v p) g = floatValue p g.
Proof. intros H. simpl. rewrite H. reflexivity. Qed.

Lemma setParamValue_float_bool (f : FloatID) (v : R) (p : Parameters) :
  boolValue (setParamValue (FloatParam f) v p) = boolValue p.
Proof. reflexivity. Qed.

Lemma setParamValue_currentProgram (id : ParamID) (v : R) (p : Parameters) :
  currentProgram (setParamValue id v p) = currentProgram p.
Proof. destruct id; reflexivity. Qed.

Lemma writeSnapshot_bool (a b c d e g h i j : R) (p : Parameters) :
  boolValue (writeSnapshot a b c d e g h i j p) = boolValue p.
Proof. reflexivity. Qed.

Lemma writeSnapshot_currentProgram (a b c d e g h i j : R) (p : Parameters) :
  currentProgram (writeSnapshot a b c d e g h i j p) = currentProgram p.
Proof. reflexivity. Qed.

(** What a [case] of the switch leaves in each float parameter. *)
Lemma writeSnapshot_float (a b c d e g h i j : R) (p : Parameters)
    (f : FloatID) :
  floatValue (writeSnapshot a b c d e g h i j p) f =
  convertFrom0to1 f
    (convertTo0to1 f
       match f with
       | Drive => a | Range => b | Blend => c | Volume => d
       | MidFreq => e | MidGain => g | HighPassFreq => h
       | LowPassFreq => i | DistortionType => j
       end).
Proof. destruct f; reflexivity. Qed.

(** The switch on an index outside 0..4 matches no case. *)
Lemma setCurrentProgram_out_of_range (index : Z) (p : Parameters) :
  (index < 0 \/ 4 < index)%Z ->
  floatValue (setCurrentProgram index p) = floatValue p /\
  boolValue (setCurrentProgram index p) = boolValue p.
Proof.
  intros H. unfold setCurrentProgram.
  destruct index as [|q|q]; [lia| |split; reflexivity].
  destruct q as [[[|q|]|[|q|]|]|[[|q|]|[q|q|]|]|]; try lia; split; reflexivity.
Qed.

(** ** The preset bank *)

(** An index 0..4 writes its nine values, each within its declared range, so
    each reads back as written. *)
Lemma setCurrentProgram_sushi_roll_float (p : Parameters) (f : FloatID) :
  floatValue (setCurrentProgram 2 p) f =
  match f with
  | Drive => 1.2 | Range => 2.5 | Blend => 0.9 | Volume => 1.3
  | MidFreq => 1200 | MidGain => 7 | HighPassFreq => 120
  | LowPassFreq => 7000 | DistortionType => 1
  end.
Proof.
  unfold setCurrentProgram. rewrite writeSnapshot_float.
  apply convert_roundtrip_inside;
    destruct f; cbn [minValue maxValue createParameterLayout];
    first [lra|grid].
Qed.

(** C7.  After [setCurrentProgram 2] the nine float parameters read back as
    drive 1.2, range 2.5, blend 0.9, volume 1.3, midFreq 1200, midGain 7,
    highPassFreq 120, lowPassFreq 7000, distortionType 1.0, whatever the store
    held before. *)
Theorem C7_sushi_roll_readback (p : Parameters) :
  let q := setCurrentProgram 2 p in
  getRawParameterValue q ParamIDs.drive = 1.2 /\
  getRawParameterValue q ParamIDs.range = 2.5 /\
  getRawParameterValue q ParamIDs.blend = 0.9 /\
  getRawParameterValue q ParamIDs.volume = 1.3 /\
  getRawParameterValue q ParamIDs.midFreq = 1200 /\
  getRawParameterValue q ParamIDs.midGain = 7 /\
  getRawParameterValue q ParamIDs.highPassFreq = 120 /\
  getRawParameterValue q ParamIDs.lowPassFreq = 7000 /\
  getRawParameterValue q ParamIDs.distortionType = 1.
Proof.
  intros q. unfold q, getRawParameterValue, ParamIDs.drive, ParamIDs.range,
    ParamIDs.blend, ParamIDs.volume, ParamIDs.midFreq, ParamIDs.midGain,
    ParamIDs.highPassFreq, ParamIDs.lowPassFreq, ParamIDs.distortionType.
  repeat split; apply (setCurrentProgram_sushi_roll_float p).
Qed.

(** No case of the switch, and no index outside it, touches a bool
    parameter. *)
Lemma setCurrentProgram_boolValue (index : Z) (p : Parameters) :
  boolValue (setCurrentProgram index p) = boolValue p.
Proof.
  unfold setCurrentProgram.
  repeat match goal with
         | |- context [match ?x with _ => _ end] => destruct x
         end; reflexivity.
Qed.

(** C9.  Applying a preset leaves the bypass parameter as it was: the stored
    bool is the same and the raw value read after equals the one read before.
    This holds for every index, so for 0..4. *)
Theorem C9_preset_keeps_bypass (index : Z) (p : Parameters) :
  boolValue (setCurrentProgram index p) Bypass = boolValue p Bypass /\
  getRawParameterValue (setCurrentProgram index p) ParamIDs.bypass =
  getRawParameterValue p ParamIDs.bypass.
Proof.
  unfold getRawParameterValue, ParamIDs.bypass.
  rewrite setCurrentProgram_boolValue. split; reflexivity.
Qed.

Lemma setCurrentProgram_currentProgram (index : Z) (p : Parameters) :
  currentProgram (setCurrentProgram index p) =
  Some (juce.jlimitInt 0 (getNumPrograms - 1) index).
Proof.
  unfold setCurrentProgram.
  repeat match goal with
         | |- context [match ?x with _ => _ end] => destruct x
         end; reflexivity.
Qed.

(** C10.  After [setCurrentProgram] with any integer, [getCurrentProgram]
    returns the argument clamped to 0..4, a value of {0, 1, 2, 3, 4}. *)
Theorem C10_current_program_clamped (index : Z) (p : Parameters) :
  let r := getCurrentProgram (setCurrentProgram index p) in
  r = Z.max 0 (Z.min 4 index) /\ (0 <= r <= 4)%Z.
Proof.
  intros r. unfold r, getCurrentProgram.
  rewrite setCurrentProgram_currentProgram.
  unfold getNumPrograms. rewrite jlimitInt_spec by lia. lia.
Qed.

(** C6.  Index 7 on a fresh store: the stored program index becomes 4, yet
    no parameter is written; every float parameter still holds its default,
    and drive (0.5) is not the drive of preset 4 (0.8), which index 4 does
    write. *)
Theorem C6_index_7_writes_no_snapshot :
  let q := setCurrentProgram 7 initialParameters in
  getCurrentProgram q = 4%Z /\
  (forall f, floatValue q f = floatValue initialParameters f) /\
  floatValue q Drive = 0.5 /\
  floatValue (setCurrentProgram 4 initialParameters) Drive = 0.8.
Proof.
  repeat split.
  unfold setCurrentProgram. rewrite writeSnapshot_float.
  apply convert_roundtrip_inside;
    cbn [minValue maxValue createParameterLayout]; first [lra|grid].
Qed.

(** ** Decoding the distortion mode *)

Lemma static_cast_int_nonneg (x : R) (z : Z) :
  0 <= x -> IZR z <= x < IZR z + 1 -> juce.static_cast_int x = z.
Proof.
  intros Hx [Hlo Hhi]. unfold juce.static_cast_int.
  destruct (Rle_dec 0 x); [|contradiction].
  symmetry. apply Int_part_spec. lra.
Qed.

Lemma roundToInt_above_half (x : R) (z : Z) :
  IZR z + 1 / 2 < x < IZR z + 1 -> juce.roundToInt x = (z + 1)%Z.
Proof.
  intros [Hlo Hhi].
  destruct (Int_part_frac_part_spec x z (x - IZR z)) as [Hi Hf];
    [lra|lra|].
  unfold juce.roundToInt. rewrite <- Hi, <- Hf.
  destruct (Rlt_dec (x - IZR z) (1 / 2)); [lra|].
  destruct (Rlt_dec (1 / 2) (x - IZR z)); [reflexivity|lra].
Qed.

Lemma roundToInt_integer (z : Z) : juce.roundToInt (IZR z) = z.
Proof.
  destruct (Int_part_frac_part_spec (IZR z) z 0) as [Hi Hf]; [lra|lra|].
  unfold juce.roundToInt. rewrite <- Hi, <- Hf.
  destruct (Rlt_dec 0 (1 / 2)); [reflexivity|lra].
Qed.

Lemma round_spec_nonneg (x : R) (z : Z) :
  0 <= x -> IZR z - 1 / 2 <= x < IZR z + 1 / 2 -> round_spec x = z.
Proof.
  intros Hx [Hlo Hhi]. unfold round_spec.
  destruct (Rle_dec 0 x); [|contradiction].
  symmetry. apply Int_part_spec. lra.
Qed.

(** The store after the host or the editor has set [distortionType] to a
    value of its range that is a multiple of 0.01 reads that value back. *)
Lemma distortionType_set (v : R) (p : Parameters) :
  0 <= v <= 1 -> onGrid 0 v ->
  getRawParameterValue (setParamValue ParamIDs.distortionType v p)
    ParamIDs.distortionType = v.
Proof.
  intros Hv Hg. unfold getRawParameterValue, ParamIDs.distortionType.
  rewrite setParamValue_float_same.
  apply convert_roundtrip_inside; [simpl; lra|exact Hg].
Qed.

(** What line 200 computes over the legal values of the parameter: mode 0
    below 0.5, mode 1 from 0.5 up to but not including 1, mode 2 at 1 only. *)
Lemma decodeDistortionType_range (v : R) (p : Parameters) :
  0 <= v <= 1 -> onGrid 0 v ->
  let m := decodeDistortionType (setParamValue ParamIDs.distortionType v p) in
  (v < 0.5 -> m = 0%Z) /\ (0.5 <= v < 1 -> m = 1%Z) /\ (v = 1 -> m = 2%Z).
Proof.
  intros Hv Hg m. unfold m, decodeDistortionType.
  rewrite distortionType_set by assumption.
  repeat split; intros H; apply static_cast_int_nonneg; simpl; lra.
Qed.

Lemma button_value_on_grid (k : Z) : onGrid 0 (IZR k / 2).
Proof. exists (50 * k)%Z. rewrite mult_IZR. lra. Qed.

(** On the three values the editor buttons and the presets write (0, 0.5 and
    1) the processor and the editor decode alike. *)
Lemma decode_agrees_on_button_values (k : Z) (p : Parameters) :
  (0 <= k <= 2)%Z ->
  let q := setParamValue ParamIDs.distortionType (IZR k / 2) p in
  decodeDistortionType q = k /\ editorDistortionType q = k.
Proof.
  intros Hk q. unfold q, decodeDistortionType, editorDistortionType.
  assert (Hr : 0 <= IZR k <= 2) by (split; apply IZR_le; lia).
  rewrite distortionType_set by (try apply button_value_on_grid; lra).
  replace (IZR k / 2 * 2) with (IZR k) by field.
  split; [apply static_cast_int_nonneg; lra | apply roundToInt_integer].
Qed.

(** C5.  With distortionType 0.3 the per-sample stage runs in mode 0, where
    round (0.3 * 2) and the editor say 1; with 0.8 it runs in mode 1, where
    round (0.8 * 2) and the editor say 2: the cast of line 200 truncates. *)
Theorem C5_decode_truncates :
  let p3 := setParamValue ParamIDs.distortionType 0.3 initialParameters in
  let p8 := setParamValue ParamIDs.distortionType 0.8 initialParameters in
  (decodeDistortionType p3 = 0%Z /\
   round_spec (0.3 * 2) = 1%Z /\ editorDistortionType p3 = 1%Z) /\
  (decodeDistortionType p8 = 1%Z /\
   round_spec (0.8 * 2) = 2%Z /\ editorDistortionType p8 = 2%Z).
Proof.
  intros p3 p8. unfold p3, p8, decodeDistortionType, editorDistortionType.
  rewrite !distortionType_set by first [lra|grid].
  repeat split.
  - apply static_cast_int_nonneg; simpl; lra.
  - apply round_spec_nonneg; simpl; lra.
  - apply (roundToInt_above_half _ 0); simpl; lra.
  - apply static_cast_int_nonneg; simpl; lra.
  - apply round_spec_nonneg; simpl; lra.
  - apply (roundToInt_above_half _ 1); simpl; lra.
Qed.

(** ** The waveshaper *)


(** ** The noise gate and the mix *)

Lemma gateOf_spec (x : R) : gateOf x = gateFactor_spec x.
Proof. reflexivity. Qed.

(** C4.  The gate factor of a sample x is 0.1 when |x| < 0.01 and 1
    otherwise; the waveshaper receives x times that factor, and the value
    written back is (distorted (0.5 + 1.5 volume) blend
    + clean_gated (1 - blend)) times the same factor. *)
Theorem C4_gate_and_mix (drive range blend volume : R) (mode : Z) (x : R) :
  let gate := gateOf x in
  let cleanGated := x * gate in
  let distorted := distort cleanGated mode drive (range * 5) in
  (Rabs x < 0.01 -> gate = 0.1) /\
  (0.01 <= Rabs x -> gate = 1) /\
  processSampleStage drive range blend volume mode x =
  mix_spec distorted cleanGated volume blend gate.
Proof.
  intros gate cleanGated distorted.
  unfold distorted, cleanGated, gate.
  split; [|split].
  - intros H. unfold gateOf.
    destruct (Rlt_dec (Rabs x) 0.01); [reflexivity|contradiction].
  - intros H. unfold gateOf.
    destruct (Rlt_dec (Rabs x) 0.01); [lra|reflexivity].
  - unfold processSampleStage, mix_spec. cbv zeta.
    generalize (gateOf x). intros g.
    generalize (distort (x * g) mode drive (range * 5)). intros d. ring.
Qed.

(** ** The block pipeline *)

Section PipelineFacts.

Variables (Sample : Type) (zero : Sample).
Variable stage : R -> R -> R -> R -> Z -> Sample -> Sample.
Variables Coefficients FilterState : Type.
Variable processSample :
  Coefficients -> FilterState -> Sample -> FilterState * Sample.
Variable makeHighPass : R -> R -> Coefficients.
Variable makeLowPass : R -> R -> R -> Coefficients.
Variable makePeakFilter : R -> R -> R -> R -> Coefficients.
Variable decibelsToGain : R -> R.
Variable Oversampling : Type.
Variable processSamplesUp :
  Oversampling -> Block Sample -> Oversampling * Block Sample.
Variable processSamplesDown :
  Oversampling -> Block Sample -> Block Sample ->
  Oversampling * Block Sample.

Local Abbreviation run :=
  (processBlock Sample zero stage Coefficients FilterState processSample
     makeHighPass makeLowPass makePeakFilter decibelsToGain
     Oversampling processSamplesUp processSamplesDown).

(** The raw value of the bypass parameter is 0 or 1. *)
Lemma bypass_raw_value (p : Parameters) :
  getRawParameterValue p ParamIDs.bypass = 0 \/
  getRawParameterValue p ParamIDs.bypass = 1.
Proof. simpl. destruct (boolValue p Bypass); [right|left]; reflexivity. Qed.

(** C3.  With the bypass flag at 0.5 or above, a process call returns the
    buffer it was given, sample for sample and channel for channel, for any
    channel counts, any buffer and any other parameter values; the filters
    and the oversampler are not touched either. *)
Theorem C3_bypass_returns_input (numInputChannels numOutputChannels : nat)
    (p : Parameters) (d : Dsp Coefficients FilterState Oversampling)
    (buffer : Block Sample) :
  getRawParameterValue p ParamIDs.bypass >= 0.5 ->
  run numInputChannels numOutputChannels p d buffer = (d, buffer).
Proof.
  intros Hb. unfold processBlock.
  destruct (Rlt_dec 0.5 (getRawParameterValue p ParamIDs.bypass)) as [_|Hn];
    [reflexivity|].
  exfalso. destruct (bypass_raw_value p) as [H|H]; rewrite H in *; lra.
Qed.

(** One iteration of the channel loop on a block of a single channel: the
    channel goes through high-pass, mid-boost, the stage and low-pass, once
    each and in this order. *)
Lemma channelBody_mono (drive range blend volume : R) (mode : Z)
    (d : Dsp Coefficients FilterState Oversampling)
    (sHp sMb sLp : FilterState) (ch : list Sample) :
  processors (highPassFilter d) = [sHp] ->
  processors (midBoostFilter d) = [sMb] ->
  processors (lowPassFilter d) = [sLp] ->
  let filter f s xs :=
    snd (filterChannel Sample Coefficients FilterState processSample
           (state f) s xs) in
  snd (channelBody Sample stage Coefficients FilterState processSample
         Oversampling drive range blend volume mode 0 (d, [ch])) =
  [filter (lowPassFilter d) sLp
     (map (stage drive range blend volume mode)
        (filter (midBoostFilter d) sMb (filter (highPassFilter d) sHp ch)))].
Proof.
  intros Hhp Hmb Hlp filter. unfold filter, channelBody, process.
  rewrite Hhp, Hmb, Hlp. cbn [filterChannels].
  destruct (filterChannel _ _ _ _ (state (highPassFilter d)) sHp ch)
    as [s1 c1]. cbn [snd onChannel].
  destruct (filterChannel _ _ _ _ (state (midBoostFilter d)) sMb c1)
    as [s2 c2]. cbn [snd onChannel filterChannels].
  destruct (filterChannel _ _ _ _ (state (lowPassFilter d)) sLp _)
    as [s3 c3]. reflexivity.
Qed.

End PipelineFacts.

(** A store with the bypass switched on and the buffer of a stereo block. *)
Lemma C3_bypass_returns_input_witness :
  let p := setBool Bypass true initialParameters in
  getRawParameterValue p ParamIDs.bypass >= 0.5 /\
  Trace.run 2 2 p (Trace.prepared 2) (Trace.inputs 2) =
  (Trace.prepared 2, Trace.inputs 2).
Proof.
  intros p.
  assert (H : getRawParameterValue p ParamIDs.bypass >= 0.5) by (simpl; lra).
  split; [exact H|].
  unfold Trace.run. apply C3_bypass_returns_input. exact H.
Defined.

(** The symbolic run is not bypassed on a fresh store. *)
Lemma trace_run_unbypassed (numIn numOut : nat) (p : Parameters)
    (d : Dsp Trace.Coefficients unit unit) (buffer : list (list Trace.Sample)) :
  boolValue p Bypass = false ->
  Trace.run numIn numOut p d buffer =
  let buffer1 :=
    fold_left (fun b i => clear Trace.Sample Trace.Silence i b)
      (seq numIn (numOut - numIn)) buffer in
  let d1 :=
    {| highPassFilter :=
         {| state := Trace.HighPassCoefs;
            processors := processors (highPassFilter d) |};
       lowPassFilter :=
         {| state := Trace.LowPassCoefs;
            processors := processors (lowPassFilter d) |};
       midBoostFilter :=
         {| state := Trace.PeakCoefs;
            processors := processors (midBoostFilter d) |};
       oversampler := tt; sampleRate := sampleRate d |} in
  let r :=
    fold_left
      (fun acc channel =>
         channelBody Trace.Sample (fun _ _ _ _ _ => Trace.Distort)
           Trace.Coefficients unit Trace.processSample unit
           (getRawParameterValue p ParamIDs.drive)
           (getRawParameterValue p ParamIDs.range)
           (getRawParameterValue p ParamIDs.blend)
           (getRawParameterValue p ParamIDs.volume)
           (decodeDistortionType p) channel acc)
      (seq 0 numIn) (d1, buffer1) in
  ({| highPassFilter := highPassFilter (fst r);
      lowPassFilter := lowPassFilter (fst r);
      midBoostFilter := midBoostFilter (fst r);
      oversampler := oversampler (fst r);
      sampleRate := sampleRate (fst r) |}, snd r).
Proof.
  intros Hb. unfold Trace.run, processBlock.
  destruct (Rlt_dec 0.5 (getRawParameterValue p ParamIDs.bypass)) as [H|_].
  - simpl in H. rewrite Hb in H. lra.
  - cbv zeta. unfold setCoefficients.
    destruct (oversampler d).
    match goal with
    | |- (let (_, _) := let (_, _) := ?r in _ in _) = _ => destruct r
    | |- (let (_, _) := ?r in _) = _ => destruct r
    end.
    reflexivity.
Qed.

(** *** The channel loop on symbolic samples *)

Lemma trace_filterChannel (c : Trace.Coefficients) (s : unit)
    (samples : list Trace.Sample) :
  filterChannel Trace.Sample Trace.Coefficients unit Trace.processSample
    c s samples = (s, map (Trace.tag c) samples).
Proof.
  induction samples as [|x rest IH]; simpl; [reflexivity|].
  rewrite IH. reflexivity.
Qed.

Lemma trace_filterChannels (c : Trace.Coefficients)
    (block : list (list Trace.Sample)) :
  filterChannels Trace.Sample Trace.Coefficients unit Trace.processSample
    c (repeat tt (length block)) block =
  (repeat tt (length block), map (map (Trace.tag c)) block).
Proof.
  induction block as [|ch rest IH]; simpl; [reflexivity|].
  rewrite trace_filterChannel, IH. reflexivity.
Qed.

Lemma onChannel_length (A : Type) (k : nat) (g : list A -> list A)
    (block : list (list A)) :
  length (onChannel A k g block) = length block.
Proof.
  revert k. induction block as [|ch rest IH]; intros k; [reflexivity|].
  destruct k; simpl; [reflexivity|]. rewrite IH. reflexivity.
Qed.

Lemma onChannel_Forall (A : Type) (P : list A -> Prop) (k : nat)
    (g : list A -> list A) (block : list (list A)) :
  (forall ch, P ch -> P (g ch)) ->
  Forall P block -> Forall P (onChannel A k g block).
Proof.
  intros Hg. revert k.
  induction block as [|ch rest IH]; intros k H; [constructor|].
  inversion H; subst. destruct k; simpl; constructor; auto.
Qed.

(** One iteration of the channel loop on a prepared processor: all the
    channels are filtered three times, one channel is distorted. *)
Lemma trace_channelBody (a b c e : R) (m : Z) (channel : nat)
    (block : list (list Trace.Sample)) :
  channelBody Trace.Sample (fun _ _ _ _ _ => Trace.Distort)
    Trace.Coefficients unit Trace.processSample unit a b c e m channel
    (Trace.prepared (length block), block) =
  (Trace.prepared (length block),
   map (map Trace.LowPass)
     (onChannel Trace.Sample channel (map Trace.Distort)
        (map (map Trace.MidBoost) (map (map Trace.HighPass) block)))).
Proof.
  unfold channelBody, process, Trace.prepared. cbn [highPassFilter
    midBoostFilter lowPassFilter state processors oversampler sampleRate].
  rewrite (trace_filterChannels Trace.HighPassCoefs block).
  set (b1 := map (map (Trace.tag Trace.HighPassCoefs)) block).
  assert (H1 : length block = length b1)
    by (unfold b1; rewrite length_map; reflexivity).
  rewrite H1 at 1. rewrite (trace_filterChannels Trace.PeakCoefs b1).
  set (b2 := map (map (Trace.tag Trace.PeakCoefs)) b1).
  set (b3 := onChannel Trace.Sample channel (map Trace.Distort) b2).
  assert (H3 : length block = length b3).
  { unfold b3, b2. rewrite onChannel_length, length_map. exact H1. }
  rewrite H3 at 1. rewrite (trace_filterChannels Trace.LowPassCoefs b3).
  rewrite <- H3, <- H1. reflexivity.
Qed.

Lemma Forall_map_count (g : Trace.Sample -> Trace.Sample) (n k : nat)
    (ch : list Trace.Sample) :
  (forall x, Trace.countHighPass (g x) = (k + Trace.countHighPass x)%nat) ->
  Forall (fun x => Trace.countHighPass x = n) ch ->
  Forall (fun x => Trace.countHighPass x = (k + n)%nat) (map g ch).
Proof.
  intros Hg H. induction H as [|x rest Hx _ IH]; simpl; constructor; auto.
  rewrite Hg, Hx. reflexivity.
Qed.

Lemma highPassCount_map (g : Trace.Sample -> Trace.Sample) (n k : nat)
    (block : list (list Trace.Sample)) :
  (forall x, Trace.countHighPass (g x) = (k + Trace.countHighPass x)%nat) ->
  Trace.highPassCountIs n block -> Trace.highPassCountIs (k + n)%nat (map (map g) block).
Proof.
  intros Hg H. induction H as [|ch rest Hch _ IH]; simpl; constructor; auto.
  apply Forall_map_count; assumption.
Qed.

Lemma trace_channelBody_count (a b c e : R) (m : Z) (channel n : nat)
    (block : list (list Trace.Sample)) :
  Trace.highPassCountIs n block ->
  Trace.highPassCountIs (S n)
    (snd (channelBody Trace.Sample (fun _ _ _ _ _ => Trace.Distort)
            Trace.Coefficients unit Trace.processSample unit a b c e m channel
            (Trace.prepared (length block), block))).
Proof.
  intros H. rewrite trace_channelBody. cbn [snd].
  apply (highPassCount_map Trace.LowPass (S n) 0%nat); [reflexivity|].
  apply onChannel_Forall.
  - intros ch Hch. apply (Forall_map_count Trace.Distort (S n) 0%nat);
      [reflexivity|exact Hch].
  - apply (highPassCount_map Trace.MidBoost (S n) 0%nat); [reflexivity|].
    apply (highPassCount_map Trace.HighPass n 1%nat); [reflexivity|exact H].
Qed.

Lemma trace_channelBody_shape (a b c e : R) (m : Z) (channel : nat)
    (block : list (list Trace.Sample)) :
  let r :=
    channelBody Trace.Sample (fun _ _ _ _ _ => Trace.Distort)
      Trace.Coefficients unit Trace.processSample unit a b c e m channel
      (Trace.prepared (length block), block) in
  fst r = Trace.prepared (length block) /\ length (snd r) = length block.
Proof.
  intros r. unfold r. rewrite trace_channelBody. cbn [fst snd].
  rewrite length_map, onChannel_length, !length_map. split; reflexivity.
Qed.

(** The channel loop over [k] channels applies the high-pass section [k]
    times to every sample of the block. *)
Lemma trace_loop_count (a b c e : R) (m : Z) (k : nat) :
  forall (start n : nat) (block : list (list Trace.Sample)),
    Trace.highPassCountIs n block ->
    let r :=
      fold_left
        (fun acc channel =>
           channelBody Trace.Sample (fun _ _ _ _ _ => Trace.Distort)
             Trace.Coefficients unit Trace.processSample unit a b c e m
             channel acc)
        (seq start k) (Trace.prepared (length block), block) in
    Trace.highPassCountIs (k + n)%nat (snd r).
Proof.
  induction k as [|k IH]; intros start n block H; [exact H|].
  cbn [seq fold_left].
  destruct (trace_channelBody_shape a b c e m start block) as [Hd Hl].
  pose proof (trace_channelBody_count a b c e m start n block H) as Hc.
  destruct (channelBody _ _ _ _ _ _ a b c e m start
              (Trace.prepared (length block), block)) as [d1 b1].
  cbn [fst snd] in Hd, Hl, Hc. subst d1. rewrite <- Hl.
  replace (S k + n)%nat with (k + S n)%nat by lia.
  apply IH. exact Hc.
Qed.

Lemma inputs_length (n : nat) : length (Trace.inputs n) = n.
Proof. unfold Trace.inputs. rewrite length_map, length_seq. reflexivity. Qed.

Lemma inputs_count (n : nat) : Trace.highPassCountIs 0%nat (Trace.inputs n).
Proof.
  unfold Trace.highPassCountIs, Trace.inputs. apply Forall_map.
  apply Forall_forall. intros c _. repeat constructor.
Qed.

(** With [n] channels in and out, every sample of the processed block has
    been through the high-pass section [n] times. *)
Lemma trace_run_highPass_count (n : nat) :
  Trace.highPassCountIs n
    (snd (Trace.run n n initialParameters (Trace.prepared n) (Trace.inputs n))).
Proof.
  rewrite trace_run_unbypassed by reflexivity.
  cbv zeta. cbn [snd]. rewrite Nat.sub_diag. cbn [seq fold_left].
  pose proof (trace_loop_count
                (getRawParameterValue initialParameters ParamIDs.drive)
                (getRawParameterValue initialParameters ParamIDs.range)
                (getRawParameterValue initialParameters ParamIDs.blend)
                (getRawParameterValue initialParameters ParamIDs.volume)
                (decodeDistortionType initialParameters)
                n 0%nat 0%nat (Trace.inputs n) (inputs_count n)) as H.
  rewrite inputs_length, Nat.add_0_r in H. exact H.
Qed.

(** A mono block goes through each stage once, in the order high-pass,
    mid-boost, gate and distortion, low-pass. *)
Lemma trace_run_mono :
  snd (Trace.run 1 1 initialParameters (Trace.prepared 1) (Trace.inputs 1)) =
  [[Trace.once (Trace.Input 0 0)]].
Proof. rewrite trace_run_unbypassed by reflexivity. reflexivity. Qed.

(** C1.  A stereo block on a fresh store, not bypassed: each iteration of the
    channel loop filters both channels, so the sample of channel 0 goes
    through high-pass, mid-boost, gate and distortion, low-pass and then
    through high-pass, mid-boost and low-pass again, and the sample of
    channel 1 is filtered by all three sections before its own pass; neither
    is what one pass in the stated order gives. *)
Theorem C1_stereo_block_is_filtered_twice :
  let out :=
    snd (Trace.run 2 2 initialParameters (Trace.prepared 2) (Trace.inputs 2)) in
  out =
    [[Trace.LowPass (Trace.MidBoost (Trace.HighPass
        (Trace.once (Trace.Input 0 0))))];
     [Trace.once (Trace.LowPass (Trace.MidBoost (Trace.HighPass
        (Trace.Input 1 0))))]] /\
  out <> [[Trace.once (Trace.Input 0 0)]; [Trace.once (Trace.Input 1 0)]].
Proof.
  intros out. unfold out.
  rewrite trace_run_unbypassed by reflexivity.
  split; [reflexivity|]. cbv. intros H. discriminate H.
Qed.

(** A sample below the threshold, on the default parameter values, mode 0. *)
Lemma C4_gate_and_mix_witness :
  Rabs 0.005 < 0.01 /\
  gateOf 0.005 = 0.1 /\
  processSampleStage 0.5 1 0.8 1 0 0.005 =
  mix_spec (distort (0.005 * 0.1) 0 0.5 (1 * 5)) (0.005 * 0.1) 1 0.8 0.1.
Proof.
  assert (H : Rabs 0.005 < 0.01) by (rewrite Rabs_right; lra).
  destruct (C4_gate_and_mix 0.5 1 0.8 1 0 0.005) as [Hg [_ Hs]].
  split; [exact H|]. split; [exact (Hg H)|].
  rewrite Hs, (Hg H). reflexivity.
Defined.

(** * Further properties *)

(** ** The per-sample stage *)

Lemma Rabs_le_between (x a : R) : Rabs x <= a -> - a <= x <= a.
Proof. unfold Rabs. destruct (Rcase_abs x); lra. Qed.

Lemma tanh_0 : tanh 0 = 0.
Proof. unfold tanh. rewrite sinh_0. unfold Rdiv. apply Rmult_0_l. Qed.

Lemma cosh_pos (x : R) : 0 < cosh x.
Proof.
  unfold cosh. pose proof (exp_pos x). pose proof (exp_pos (- x)). lra.
Qed.

Lemma tanh_opp (x : R) : tanh (- x) = - tanh x.
Proof.
  pose proof (cosh_pos x) as Hc. unfold tanh, sinh, cosh in *.
  rewrite Ropp_involutive. field. lra.
Qed.

Lemma tanh_bound (x : R) : -1 < tanh x < 1.
Proof.
  pose proof (exp_pos x) as Ha. pose proof (exp_pos (- x)) as Hb.
  unfold tanh, sinh, cosh.
  set (a := exp x) in *. set (b := exp (- x)) in *.
  replace ((a - b) / 2 / ((a + b) / 2)) with ((a - b) / (a + b))
    by (field; lra).
  split.
  - apply (Rmult_lt_reg_r (a + b)); [lra|].
    unfold Rdiv. rewrite Rmult_assoc, Rinv_l by lra. lra.
  - apply (Rmult_lt_reg_r (a + b)); [lra|].
    unfold Rdiv. rewrite Rmult_assoc, Rinv_l by lra. lra.
Qed.

Lemma jlimit_opp (a v : R) :
  0 <= a -> juce.jlimit (- a) a (- v) = - juce.jlimit (- a) a v.
Proof.
  intros Ha. unfold juce.jlimit.
  destruct (Rlt_dec (- v) (- a)); destruct (Rlt_dec v (- a));
    destruct (Rlt_dec a (- v)); destruct (Rlt_dec a v); lra.
Qed.

(** The [switch] has three cases; any other mode leaves the pre-gained
    sample. *)
Lemma distort_mode_cases (mode : Z) :
  mode = 0%Z \/ mode = 1%Z \/ mode = 2%Z \/
  (forall clean drive preGain,
      distort clean mode drive preGain = clean * preGain).
Proof.
  destruct mode as [|q|q].
  - left. reflexivity.
  - destruct q as [q|q|].
    + do 3 right. reflexivity.
    + destruct q as [q|q|].
      * do 3 right. reflexivity.
      * do 3 right. reflexivity.
      * right. right. left. reflexivity.
    + right. left. reflexivity.
  - do 3 right. reflexivity.
Qed.

Lemma distort_zero (mode : Z) (drive preGain : R) :
  distort 0 mode drive preGain = 0.
Proof.
  destruct (distort_mode_cases mode) as [H|[H|[H|H]]];
    [subst; unfold distort; cbv beta iota zeta ..|rewrite H; ring].
  - rewrite !Rmult_0_l, tanh_0. ring.
  - rewrite !Rmult_0_l, tanh_0, !Rmult_0_l. apply jlimit_inside. lra.
  - rewrite !Rmult_0_l.
    replace (0 - 0.2 * 0 * 0 * 0) with 0 by ring.
    rewrite !Rmult_0_l, sin_0. apply jlimit_inside. lra.
Qed.

Lemma distort_opp (clean : R) (mode : Z) (drive preGain : R) :
  distort (- clean) mode drive preGain = - distort clean mode drive preGain.
Proof.
  destruct (distort_mode_cases mode) as [H|[H|[H|H]]];
    [subst; unfold distort; cbv beta iota zeta ..|rewrite !H; ring].
  - replace (- clean * preGain * (1 + drive))
      with (- (clean * preGain * (1 + drive))) by ring.
    rewrite tanh_opp. ring.
  - cbv zeta.
    replace (- clean * preGain * 0.6) with (- (clean * preGain * 0.6))
      by ring.
    rewrite tanh_opp.
    replace (- tanh (clean * preGain * 0.6) * 1.8 * (1 + drive * 2))
      with (- (tanh (clean * preGain * 0.6) * 1.8 * (1 + drive * 2)))
      by ring.
    replace (-0.9) with (Ropp 0.9) by lra.
    apply jlimit_opp. lra.
  - cbv zeta.
    set (u := clean * preGain).
    replace (- clean * preGain) with (- u) by (unfold u; ring).
    replace ((- u - 0.2 * - u * - u * - u) * PI * (0.5 + drive * 0.5))
      with (- ((u - 0.2 * u * u * u) * PI * (0.5 + drive * 0.5))) by ring.
    rewrite sin_neg.
    replace (-0.9) with (Ropp 0.9) by lra.
    apply jlimit_opp. lra.
Qed.

Lemma gateOf_opp (x : R) : gateOf (- x) = gateOf x.
Proof. unfold gateOf. rewrite Rabs_Ropp. reflexivity. Qed.

Lemma gateOf_cases (x : R) :
  (Rabs x < 0.01 /\ gateOf x = 0.1) \/ (0.01 <= Rabs x /\ gateOf x = 1).
Proof.
  unfold gateOf. destruct (Rlt_dec (Rabs x) 0.01); [left|right]; lra.
Qed.

(** In exact arithmetic the distorted value stays within 0.9 of zero in
    each of the three modes of the [switch]. *)
Lemma distort_bounded (clean : R) (mode : Z) (drive preGain : R) :
  (0 <= mode <= 2)%Z -> Rabs (distort clean mode drive preGain) <= 0.9.
Proof.
  intros Hm.
  assert (H : mode = 0%Z \/ mode = 1%Z \/ mode = 2%Z) by lia.
  destruct H as [H|[H|H]]; subst; unfold distort; cbv beta iota zeta.
  - pose proof (tanh_bound (clean * preGain * (1 + drive))) as Ht.
    apply Rabs_le. lra.
  - apply Rabs_le.
    match goal with
    | |- _ <= juce.jlimit ?lo ?hi ?v <= _ =>
        pose proof (jlimit_bounds lo hi v); lra
    end.
  - apply Rabs_le.
    match goal with
    | |- _ <= juce.jlimit ?lo ?hi ?v <= _ =>
        pose proof (jlimit_bounds lo hi v); lra
    end.
Qed.

(** X1.  A silent sample stays silent: the stage maps 0 to 0 for every
    drive, range, blend, volume and mode. *)
Theorem X1_stage_keeps_silence (drive range blend volume : R) (mode : Z) :
  processSampleStage drive range blend volume mode 0 = 0.
Proof.
  unfold processSampleStage. cbv zeta.
  rewrite Rmult_0_l, distort_zero. ring.
Qed.

(** X2.  The stage is an odd function of the sample: negating the input
    negates the output, for every parameter value and every mode. *)
Theorem X2_stage_is_odd (drive range blend volume : R) (mode : Z) (x : R) :
  processSampleStage drive range blend volume mode (- x) =
  - processSampleStage drive range blend volume mode x.
Proof.
  unfold processSampleStage. cbv zeta. rewrite gateOf_opp.
  replace (- x * gateOf x) with (- (x * gateOf x)) by ring.
  rewrite distort_opp. ring.
Qed.

(** *** The stage with overflow *)

Lemma f32_round_finite (r : R) :
  Rabs r < Float32.overflowThreshold -> Float32.round r = Float32.Finite r.
Proof.
  intros H. unfold Float32.round.
  destruct (Rlt_dec (Rabs r) Float32.overflowThreshold); [reflexivity|lra].
Qed.

Lemma f32_round_overflow (r : R) :
  Float32.overflowThreshold <= Rabs r ->
  Float32.round r = Float32.Infinity (Float32.isNegative r).
Proof.
  intros H. unfold Float32.round.
  destruct (Rlt_dec (Rabs r) Float32.overflowThreshold); [lra|reflexivity].
Qed.

Lemma f32_round_not_nan (r : R) : Float32.round r <> Float32.NaN.
Proof.
  unfold Float32.round. destruct (Rlt_dec _ _); discriminate.
Qed.

(** A product is NaN only from a NaN factor or from an infinity times
    zero. *)
Lemma f32_mul_not_nan (a : Float32.float) (y : R) :
  a <> Float32.NaN -> (Float32.isFinite a \/ y <> 0) ->
  Float32.mul a (Float32.Finite y) <> Float32.NaN.
Proof.
  intros Ha Hy. destruct a as [x|s|]; simpl.
  - apply f32_round_not_nan.
  - destruct (Req_dec_T y 0) as [E|E]; [|discriminate].
    destruct Hy as [[]|Hy]. contradiction.
  - contradiction.
Qed.

Lemma f32_tanh_finite (a : Float32.float) :
  a <> Float32.NaN ->
  exists t : R, Float32.tanh a = Float32.Finite t /\ -1 <= t <= 1.
Proof.
  intros Ha. destruct a as [x|s|]; simpl.
  - exists (tanh x). pose proof (tanh_bound x). split; [reflexivity|lra].
  - exists (if s then -1 else 1). split; [reflexivity|destruct s; lra].
  - contradiction.
Qed.



Lemma f32_jlimit_nan (lo hi : Float32.float) :
  Float32.jlimit lo hi Float32.NaN = Float32.NaN.
Proof. destruct lo, hi; reflexivity. Qed.

Lemma f32_jlimit_within (b : R) (v : Float32.float) :
  0 <= b -> v <> Float32.NaN ->
  Float32.magnitudeAtMost b
    (Float32.jlimit (Float32.Finite (- b)) (Float32.Finite b) v).
Proof.
  intros Hb Hv. unfold Float32.jlimit. destruct v as [x|s|]; simpl.
  - destruct (Rlt_dec x (- b)); simpl.
    + rewrite Rabs_Ropp, Rabs_right; lra.
    + destruct (Rlt_dec b x); simpl.
      * rewrite Rabs_right; lra.
      * apply Rabs_le. lra.
  - destruct s; simpl.
    + rewrite Rabs_Ropp, Rabs_right; lra.
    + rewrite Rabs_right; lra.
  - contradiction.
Qed.

(** The side conditions of the lemmas below compare against the
    threshold as a number. *)
Ltac threshold := unfold Float32.overflowThreshold in *.

Lemma f32_mul_finite (x y : R) :
  Rabs (x * y) < Float32.overflowThreshold ->
  Float32.mul (Float32.Finite x) (Float32.Finite y) = Float32.Finite (x * y).
Proof. apply f32_round_finite. Qed.

Lemma f32_add_finite (x y : R) :
  Rabs (x + y) < Float32.overflowThreshold ->
  Float32.add (Float32.Finite x) (Float32.Finite y) = Float32.Finite (x + y).
Proof. apply f32_round_finite. Qed.

Lemma f32_sub_finite (x y : R) :
  Rabs (x - y) < Float32.overflowThreshold ->
  Float32.sub (Float32.Finite x) (Float32.Finite y) = Float32.Finite (x - y).
Proof. intros H. unfold Float32.sub. simpl. apply f32_round_finite. exact H. Qed.

Lemma Rabs_product (a b A B : R) :
  Rabs a <= A -> Rabs b <= B -> Rabs (a * b) <= A * B.
Proof.
  intros Ha Hb. rewrite Rabs_mult.
  pose proof (Rabs_pos a). pose proof (Rabs_pos b). nra.
Qed.

Lemma f32_gateOf_finite (x : R) :
  Float32.gateOf (Float32.Finite x) =
  Float32.Finite (if Rlt_dec (Rabs x) 0.01 then 0.1 else 1).
Proof.
  unfold Float32.gateOf. simpl. destruct (Rlt_dec (Rabs x) 0.01); reflexivity.
Qed.

(** One operation on two finite constants whose result stays finite. *)
Ltac finite_step :=
  first
    [ rewrite f32_mul_finite by (apply Rabs_def1; threshold; lra)
    | rewrite f32_add_finite by (apply Rabs_def1; threshold; lra)
    | rewrite f32_sub_finite by (apply Rabs_def1; threshold; lra) ].

Lemma Rabs_sum (a b A B : R) :
  Rabs a <= A -> Rabs b <= B -> Rabs (a + b) <= A + B.
Proof. intros Ha Hb. pose proof (Rabs_triang a b). lra. Qed.

Lemma Rabs_difference (a b A B : R) :
  Rabs a <= A -> Rabs b <= B -> Rabs (a - b) <= A + B.
Proof.
  intros Ha Hb. unfold Rminus. apply Rabs_sum; [exact Ha|].
  rewrite Rabs_Ropp. exact Hb.
Qed.

(** A magnitude is below the threshold through a bound in the context. *)
Ltac bounded :=
  eapply Rle_lt_trans; [eassumption|threshold; lra].

Lemma f32_jlimit_finite (lo hi v : R) :
  Float32.jlimit (Float32.Finite lo) (Float32.Finite hi) (Float32.Finite v) =
  Float32.Finite (juce.jlimit lo hi v).
Proof.
  unfold Float32.jlimit, juce.jlimit. simpl.
  destruct (Rlt_dec v lo); [reflexivity|].
  destruct (Rlt_dec hi v); reflexivity.
Qed.

(** Without overflow the [switch] computes what it computes over the
    reals: a pre-gained sample of magnitude at most 10^12 overflows in none
    of the three modes. *)
Lemma distort32_agrees (clean drive preGain : R) (mode : Z) :
  (0 <= mode <= 2)%Z -> 0 <= drive <= 2 ->
  Rabs (clean * preGain) <= 1000000000000 ->
  Float32.distort (Float32.Finite clean) mode (Float32.Finite drive)
    (Float32.Finite preGain) =
  Float32.Finite (distort clean mode drive preGain).
Proof.
  intros Hm Hd B0.
  assert (H : mode = 0%Z \/ mode = 1%Z \/ mode = 2%Z) by lia.
  unfold Float32.distort, distort, Float32.pi. cbv zeta.
  rewrite f32_mul_finite by bounded.
  set (u := clean * preGain) in *.
  pose proof (tanh_bound (u * (1 + drive))) as T0.
  pose proof (tanh_bound (u * 0.6)) as T1.
  pose proof PI_4 as P4. pose proof PI_RGT_0 as P0.
  destruct H as [H|[H|H]]; subst mode.
  - assert (B1 : Rabs (1 + drive) <= 3) by (apply Rabs_le; lra).
    assert (B2 : Rabs (u * (1 + drive)) <= 1000000000000 * 3)
      by (apply Rabs_product; assumption).
    rewrite f32_add_finite by bounded.
    rewrite f32_mul_finite by bounded.
    simpl Float32.tanh.
    rewrite f32_mul_finite by (apply Rabs_def1; threshold; lra).
    reflexivity.
  - assert (B1 : Rabs (u * 0.6) <= 1000000000000 * 0.6)
      by (apply Rabs_product; [assumption|apply Rabs_le; lra]).
    rewrite f32_mul_finite by bounded.
    simpl Float32.tanh.
    rewrite (f32_mul_finite (tanh (u * 0.6)))
      by (apply Rabs_def1; threshold; lra).
    rewrite (f32_mul_finite drive) by (apply Rabs_def1; threshold; lra).
    rewrite f32_add_finite by (apply Rabs_def1; threshold; lra).
    assert (B2 : Rabs (tanh (u * 0.6) * 1.8 * (1 + drive * 2)) <= 1.8 * 5).
    { apply Rabs_product; apply Rabs_le; lra. }
    rewrite f32_mul_finite by bounded.
    apply f32_jlimit_finite.
  - assert (B1 : Rabs (0.2 * u) <= 0.2 * 1000000000000)
      by (apply Rabs_product; [apply Rabs_le; lra|assumption]).
    assert (B2 : Rabs (0.2 * u * u) <= 0.2 * 1000000000000 * 1000000000000)
      by (apply Rabs_product; assumption).
    assert (B3 : Rabs (0.2 * u * u * u)
                 <= 0.2 * 1000000000000 * 1000000000000 * 1000000000000)
      by (apply Rabs_product; assumption).
    assert (B4 : Rabs (u - 0.2 * u * u * u)
                 <= 1000000000000
                    + 0.2 * 1000000000000 * 1000000000000 * 1000000000000)
      by (apply Rabs_difference; assumption).
    assert (B5 : Rabs ((u - 0.2 * u * u * u) * PI)
                 <= (1000000000000
                     + 0.2 * 1000000000000 * 1000000000000 * 1000000000000)
                    * 4)
      by (apply Rabs_product; [assumption|apply Rabs_le; lra]).
    assert (B6 : Rabs (drive * 0.5) <= 1) by (apply Rabs_le; lra).
    assert (B7 : Rabs (0.5 + drive * 0.5) <= 1.5) by (apply Rabs_le; lra).
    assert (B8 : Rabs ((u - 0.2 * u * u * u) * PI * (0.5 + drive * 0.5))
                 <= (1000000000000
                     + 0.2 * 1000000000000 * 1000000000000 * 1000000000000)
                    * 4 * 1.5)
      by (apply Rabs_product; assumption).
    rewrite (f32_mul_finite 0.2 u) by bounded.
    rewrite (f32_mul_finite (0.2 * u) u) by bounded.
    rewrite (f32_mul_finite (0.2 * u * u) u) by bounded.
    rewrite f32_sub_finite by bounded.
    rewrite (f32_mul_finite (u - 0.2 * u * u * u) PI) by bounded.
    rewrite (f32_mul_finite drive 0.5) by bounded.
    rewrite f32_add_finite by bounded.
    rewrite f32_mul_finite by bounded.
    simpl Float32.sin. apply f32_jlimit_finite.
Qed.

(** The modes that go through tanh do not overflow into a NaN: an
    infinite pre-gained sample gives tanh the value 1 or -1. *)
Lemma distort32_tanh_modes (clean drive preGain : R) (mode : Z) :
  0 <= drive <= 2 -> (mode = 0 \/ mode = 1)%Z ->
  Float32.magnitudeAtMost 0.9
    (Float32.distort (Float32.Finite clean) mode (Float32.Finite drive)
       (Float32.Finite preGain)).
Proof.
  intros Hd Hm. unfold Float32.distort. cbv zeta.
  set (d := Float32.mul (Float32.Finite clean) (Float32.Finite preGain)).
  assert (Nd : d <> Float32.NaN) by apply f32_round_not_nan.
  destruct Hm as [Hm|Hm]; subst mode.
  - rewrite f32_add_finite by (apply Rabs_def1; threshold; lra).
    destruct (f32_tanh_finite (Float32.mul d (Float32.Finite (1 + drive))))
      as [t [Et Ht]]; [apply f32_mul_not_nan; [exact Nd|right; lra]|].
    rewrite Et, f32_mul_finite by (apply Rabs_def1; threshold; lra).
    simpl. apply Rabs_le. lra.
  - destruct (f32_tanh_finite (Float32.mul d (Float32.Finite 0.6)))
      as [t [Et Ht]]; [apply f32_mul_not_nan; [exact Nd|right; lra]|].
    rewrite Et, (f32_mul_finite t) by (apply Rabs_def1; threshold; lra).
    rewrite (f32_mul_finite drive) by (apply Rabs_def1; threshold; lra).
    rewrite f32_add_finite by (apply Rabs_def1; threshold; lra).
    replace (-0.9) with (Ropp 0.9) by lra.
    apply f32_jlimit_within; [lra|]. apply f32_round_not_nan.
Qed.


Lemma gate_cases (x : R) : gateOf x = 0.1 \/ gateOf x = 1.
Proof. destruct (gateOf_cases x) as [[_ H]|[_ H]]; [left|right]; exact H. Qed.

(** Lines 225-228 on a finite sample and a range of 0..5: neither the gated
    sample nor the pre-gain overflows. *)
Lemma stage32_prefix (x range : R) :
  Rabs x < Float32.overflowThreshold -> 0 <= range <= 5 ->
  Float32.gateOf (Float32.Finite x) = Float32.Finite (gateOf x) /\
  Float32.mul (Float32.Finite x) (Float32.Finite (gateOf x)) =
    Float32.Finite (x * gateOf x) /\
  Float32.mul (Float32.Finite range) (Float32.Finite 5) =
    Float32.Finite (range * 5).
Proof.
  intros Hx Hr. split; [apply f32_gateOf_finite|]. split.
  - apply f32_mul_finite. rewrite Rabs_mult.
    pose proof (Rabs_pos x).
    destruct (gate_cases x) as [E|E]; rewrite E;
      [rewrite (Rabs_right 0.1) by lra|rewrite (Rabs_right 1) by lra]; lra.
  - apply f32_mul_finite. apply Rabs_def1; threshold; lra.
Qed.

Lemma gate_range (x : R) : 0 < gateOf x <= 1.
Proof. destruct (gate_cases x) as [E|E]; rewrite E; lra. Qed.

Lemma mix_bound (d k b x g : R) :
  Rabs d <= 0.9 -> 0 <= k -> 0 <= b <= 1 -> 0 < g <= 1 ->
  Rabs ((d * k * b + x * g * (1 - b)) * g)
  <= 0.9 * k * b + Rabs x * (1 - b).
Proof.
  intros Hd Hk Hb Hg.
  apply Rabs_le_between in Hd. pose proof (Rabs_pos x) as Hx0.
  assert (Hx : - Rabs x <= x <= Rabs x)
    by (apply Rabs_le_between; lra).
  assert (Hkb : 0 <= k * b) by nra.
  assert (HA : - (0.9 * k * b) <= d * k * b <= 0.9 * k * b) by nra.
  assert (Hxg : - Rabs x <= x * g <= Rabs x) by nra.
  assert (HC : - (Rabs x * (1 - b)) <= x * g * (1 - b)
               <= Rabs x * (1 - b)) by nra.
  set (A := d * k * b) in *. set (C := x * g * (1 - b)) in *.
  set (B := 0.9 * k * b + Rabs x * (1 - b)).
  assert (HS : - B <= A + C <= B) by (unfold B; lra).
  apply Rabs_le. split; nra.
Qed.

(** Lines 247-248 once the waveshaper has returned a finite value within
    0.9: with blend in 0..1 and volume in 0..2 nothing overflows. *)
Lemma stage32_finite (drive range blend volume x d : R) (mode : Z) :
  Rabs x < Float32.overflowThreshold -> 0 <= range <= 5 ->
  0 <= blend <= 1 -> 0 <= volume <= 2 ->
  Float32.distort (Float32.Finite (x * gateOf x)) mode (Float32.Finite drive)
    (Float32.Finite (range * 5)) = Float32.Finite d ->
  Rabs d <= 0.9 ->
  Float32.processSampleStage (Float32.Finite drive) (Float32.Finite range)
    (Float32.Finite blend) (Float32.Finite volume) mode (Float32.Finite x) =
  Float32.Finite
    ((d * (0.5 + volume * 1.5) * blend + x * gateOf x * (1 - blend))
     * gateOf x).
Proof.
  intros Hx Hr Hb Hv Ed Hd.
  destruct (stage32_prefix x range Hx Hr) as [Eg [Ec Ep]].
  unfold Float32.processSampleStage. cbv zeta.
  rewrite Eg, Ec, Ep, Ed.
  pose proof (gate_range x) as Hg. set (g := gateOf x) in *.
  pose proof (Rabs_pos x) as Hx0.
  assert (Hxx : - Rabs x <= x <= Rabs x) by (apply Rabs_le_between; lra).
  apply Rabs_le_between in Hd.
  set (k := 0.5 + volume * 1.5).
  assert (Hk : 0.5 <= k <= 3.5) by (unfold k; lra).
  rewrite (f32_mul_finite volume) by (apply Rabs_def1; threshold; lra).
  rewrite (f32_add_finite 0.5) by (apply Rabs_def1; threshold; lra).
  fold k.
  assert (B1 : - 3.15 <= d * k <= 3.15) by nra.
  rewrite (f32_mul_finite d k) by (apply Rabs_def1; threshold; lra).
  assert (B2 : - (3.15 * blend) <= d * k * blend <= 3.15 * blend) by nra.
  rewrite (f32_mul_finite (d * k) blend) by (apply Rabs_def1; threshold; nra).
  rewrite (f32_sub_finite 1 blend) by (apply Rabs_def1; threshold; lra).
  assert (B3 : - Rabs x <= x * g <= Rabs x) by nra.
  assert (B4 : - (Rabs x * (1 - blend)) <= x * g * (1 - blend)
               <= Rabs x * (1 - blend)) by nra.
  assert (B5 : 3.15 * blend + Rabs x * (1 - blend)
               < Float32.overflowThreshold).
  { threshold.
    destruct (Req_dec blend 1) as [E|E]; [rewrite E; lra|].
    assert (Hlt : 0 < 1 - blend) by lra. nra. }
  rewrite (f32_mul_finite (x * g)) by (apply Rabs_def1; nra).
  rewrite f32_add_finite by (apply Rabs_def1; lra).
  rewrite f32_mul_finite; [reflexivity|].
  apply Rabs_def1; nra.
Qed.

(** Once the waveshaper has produced a NaN, every later product and sum of
    the stage is a NaN. *)
Lemma stage32_nan (drive range blend volume sample : Float32.float)
    (mode : Z) :
  Float32.distort
    (Float32.mul sample (Float32.gateOf sample)) mode drive
    (Float32.mul range (Float32.Finite 5)) = Float32.NaN ->
  Float32.processSampleStage drive range blend volume mode sample =
  Float32.NaN.
Proof.
  intros H. unfold Float32.processSampleStage. cbv zeta. rewrite H.
  reflexivity.
Qed.

(** Without overflow the whole stage computes what it computes over the
    reals. *)
Lemma stage32_agrees (drive range blend volume : R) (mode : Z) (x : R) :
  Rabs x < Float32.overflowThreshold ->
  0 <= drive <= 2 -> 0 <= range <= 5 ->
  0 <= blend <= 1 -> 0 <= volume <= 2 -> (0 <= mode <= 2)%Z ->
  Rabs (x * gateOf x * (range * 5)) <= 1000000000000 ->
  Float32.processSampleStage (Float32.Finite drive) (Float32.Finite range)
    (Float32.Finite blend) (Float32.Finite volume) mode (Float32.Finite x) =
  Float32.Finite (processSampleStage drive range blend volume mode x).
Proof.
  intros Hx Hd Hr Hb Hv Hm Hu.
  apply (stage32_finite drive range blend volume x
           (distort (x * gateOf x) mode drive (range * 5)) mode);
    try assumption.
  - apply distort32_agrees; assumption.
  - apply distort_bounded. exact Hm.
Qed.

Lemma magnitudeAtMost_finite (b : R) (v : Float32.float) :
  Float32.magnitudeAtMost b v ->
  exists d : R, v = Float32.Finite d /\ Rabs d <= b.
Proof.
  destruct v as [d|s|]; simpl; intros H; try contradiction.
  exists d. split; [reflexivity|exact H].
Qed.


(** The [switch] has three cases here too. *)
Lemma distort32_mode_cases (mode : Z) :
  mode = 0%Z \/ mode = 1%Z \/ mode = 2%Z \/
  (forall clean drive preGain,
      Float32.distort clean mode drive preGain =
      Float32.mul clean preGain).
Proof.
  destruct mode as [|q|q].
  - left. reflexivity.
  - destruct q as [q|q|].
    + do 3 right. reflexivity.
    + destruct q as [q|q|].
      * do 3 right. reflexivity.
      * do 3 right. reflexivity.
      * right. right. left. reflexivity.
    + right. left. reflexivity.
  - do 3 right. reflexivity.
Qed.

(** The wavefolder on the sample 1.7e12 with the default drive (0.5) and
    range (1): the gate is open, the pre-gained sample is 8.5e12, [folded]
    is about -1.2e38, its product with pi passes the threshold and is minus
    infinity, sin of it is NaN and [jlimit] returns that NaN. *)
Lemma wavefolder_overflow_example :
  Float32.distort
    (Float32.mul (Float32.Finite 1700000000000)
       (Float32.gateOf (Float32.Finite 1700000000000)))
    2 (Float32.Finite 0.5)
    (Float32.mul (Float32.Finite 1) (Float32.Finite 5)) = Float32.NaN.
Proof.
  rewrite f32_gateOf_finite.
  destruct (Rlt_dec (Rabs 1700000000000) 0.01) as [H|_];
    [rewrite Rabs_right in H; lra|].
  unfold Float32.distort, Float32.pi. cbv zeta.
  pose proof PI_4 as P4. pose proof PI2_3_2 as P3.
  repeat finite_step.
  replace (1700000000000 * 1 * (1 * 5)
           - 0.2 * (1700000000000 * 1 * (1 * 5))
             * (1700000000000 * 1 * (1 * 5))
             * (1700000000000 * 1 * (1 * 5)))
    with (- 122824999999999999999999991500000000000) by lra.
  unfold Float32.mul at 2. rewrite f32_round_overflow
    by (rewrite Rabs_left by lra; threshold; lra).
  unfold Float32.isNegative.
  destruct (Rlt_dec (- 122824999999999999999999991500000000000 * PI) 0);
    [|lra].
  simpl. destruct (Req_dec_T (0.5 + 0.5 * 0.5) 0); [lra|]. reflexivity.
Qed.




(** X3.  The [switch] on a finite gated sample and a finite pre-gain, with
    a drive of 0..2.  In the modes 0 and 1 the distorted value has
    magnitude at most 0.9 whatever the sample (an overflowing pre-gained
    sample gives tanh the value 1 or -1).  In mode 2 it has magnitude at
    most 0.9 when the pre-gained sample has magnitude at most 10^12, which
    keeps the wavefolder from overflowing.  A mode outside 0..2 matches no
    case and returns the pre-gained sample, which is not bounded. *)
Theorem X3_every_switch_mode_bounded (clean drive preGain : R) (mode : Z) :
  0 <= drive <= 2 ->
  let v :=
    Float32.distort (Float32.Finite clean) mode (Float32.Finite drive)
      (Float32.Finite preGain) in
  ((mode = 0 \/ mode = 1)%Z -> Float32.magnitudeAtMost 0.9 v) /\
  (mode = 2%Z -> Rabs (clean * preGain) <= 1000000000000 ->
   Float32.magnitudeAtMost 0.9 v) /\
  ((mode < 0 \/ 2 < mode)%Z ->
   v = Float32.mul (Float32.Finite clean) (Float32.Finite preGain)).
Proof.
  intros Hd v. split; [|split].
  - intros Hm. apply distort32_tanh_modes; assumption.
  - intros Hm Hu. unfold v.
    rewrite distort32_agrees by (first [lia|assumption]).
    simpl. apply distort_bounded. lia.
  - intros Hm. destruct (distort32_mode_cases mode) as [H|[H|[H|H]]];
      [lia|lia|lia|apply H].
Qed.

Lemma X3_every_switch_mode_bounded_witness :
  Float32.magnitudeAtMost 0.9
    (Float32.distort (Float32.Finite 0.5) 1 (Float32.Finite 0.5)
       (Float32.Finite 5)) /\
  Float32.magnitudeAtMost 0.9
    (Float32.distort (Float32.Finite 0.5) 2 (Float32.Finite 0.5)
       (Float32.Finite 5)) /\
  Float32.distort (Float32.Finite 0.5) 3 (Float32.Finite 0.5)
    (Float32.Finite 5) =
  Float32.mul (Float32.Finite 0.5) (Float32.Finite 5).
Proof.
  assert (Hd : 0 <= 0.5 <= 2) by lra.
  destruct (X3_every_switch_mode_bounded 0.5 0.5 5 1 Hd) as [Ha _].
  destruct (X3_every_switch_mode_bounded 0.5 0.5 5 2 Hd) as [_ [Hb _]].
  destruct (X3_every_switch_mode_bounded 0.5 0.5 5 3 Hd) as [_ [_ Hc]].
  split; [apply Ha; right; reflexivity|].
  split; [apply Hb; [reflexivity|apply Rabs_le; lra]|apply Hc; lia].
Defined.

(** The distorted value of the stage is finite and within 0.9 for a finite
    sample and parameters in range, provided that in mode 2 the pre-gained
    sample has magnitude at most 10^12. *)
Lemma stage32_distorted (drive range : R) (mode : Z) (x : R) :
  Rabs x < Float32.overflowThreshold ->
  0 <= drive <= 2 -> 0 <= range <= 5 -> (0 <= mode <= 2)%Z ->
  (mode = 2%Z -> Rabs (x * gateOf x * (range * 5)) <= 1000000000000) ->
  exists d : R,
    Float32.distort (Float32.Finite (x * gateOf x)) mode
      (Float32.Finite drive) (Float32.Finite (range * 5)) =
    Float32.Finite d /\ Rabs d <= 0.9.
Proof.
  intros Hx Hd Hr Hm Hu. apply magnitudeAtMost_finite.
  assert (H : (mode = 0 \/ mode = 1)%Z \/ mode = 2%Z) by lia.
  destruct H as [H|H].
  - apply distort32_tanh_modes; assumption.
  - rewrite distort32_agrees by (first [lia|assumption|apply Hu, H]).
    simpl. apply distort_bounded. lia.
Qed.

(** X4.  For a finite sample x, drive in 0..2, range in 0..5, blend in
    0..1, volume in 0..2 and a mode of the [switch], where in mode 2 the
    pre-gained sample has magnitude at most 10^12, the value written back
    is finite and its magnitude is at most
    0.9 (0.5 + 1.5 volume) blend + |x| (1 - blend). *)
Theorem X4_stage_output_bound (drive range blend volume : R) (mode : Z)
    (x : R) :
  Rabs x < Float32.overflowThreshold ->
  0 <= drive <= 2 -> 0 <= range <= 5 ->
  0 <= blend <= 1 -> 0 <= volume <= 2 -> (0 <= mode <= 2)%Z ->
  (mode = 2%Z -> Rabs (x * gateOf x * (range * 5)) <= 1000000000000) ->
  exists out : R,
    Float32.processSampleStage (Float32.Finite drive) (Float32.Finite range)
      (Float32.Finite blend) (Float32.Finite volume) mode (Float32.Finite x) =
    Float32.Finite out /\
    Rabs out <= 0.9 * (0.5 + 1.5 * volume) * blend + Rabs x * (1 - blend).
Proof.
  intros Hx Hd Hr Hb Hv Hm Hu.
  destruct (stage32_distorted drive range mode x Hx Hd Hr Hm Hu)
    as [d [Ed Bd]].
  eexists. split.
  - apply (stage32_finite drive range blend volume x d mode);
      assumption.
  - replace (0.5 + 1.5 * volume) with (0.5 + volume * 1.5) by ring.
    apply mix_bound; [exact Bd|lra|exact Hb|apply gate_range].
Qed.

Lemma X4_stage_output_bound_witness :
  exists out : R,
    Float32.processSampleStage (Float32.Finite 0.5) (Float32.Finite 1)
      (Float32.Finite 0.8) (Float32.Finite 1) 2 (Float32.Finite 0.5) =
    Float32.Finite out /\
    Rabs out <= 0.9 * (0.5 + 1.5 * 1) * 0.8 + Rabs 0.5 * (1 - 0.8).
Proof.
  apply X4_stage_output_bound;
    [apply Rabs_def1; threshold; lra|lra|lra|lra|lra|lia|].
  intros _. pose proof (gate_range 0.5). apply Rabs_le. nra.
Defined.

(** X5.  With blend 0 (dry), for a finite sample and parameters in range.
    As long as the waveshaper returns a finite value (modes 0 and 1; mode 2
    when the pre-gained sample has magnitude at most 10^12) a sample at or
    above the gate threshold passes unchanged and a sample below it comes
    out multiplied by 0.01: the gate factor 0.1 is applied twice.  When the
    waveshaper returns NaN the dry output is NaN as well, since the stage
    still multiplies the distorted value by the blend. *)
Theorem X5_dry_path (drive range volume : R) (mode : Z) (x : R) :
  Rabs x < Float32.overflowThreshold ->
  0 <= drive <= 2 -> 0 <= range <= 5 -> 0 <= volume <= 2 ->
  let out :=
    Float32.processSampleStage (Float32.Finite drive) (Float32.Finite range)
      (Float32.Finite 0) (Float32.Finite volume) mode (Float32.Finite x) in
  (mode = 0%Z \/ mode = 1%Z \/
   mode = 2%Z /\ Rabs (x * gateOf x * (range * 5)) <= 1000000000000 ->
   (0.01 <= Rabs x -> out = Float32.Finite x) /\
   (Rabs x < 0.01 -> out = Float32.Finite (0.01 * x))) /\
  (Float32.distort
     (Float32.mul (Float32.Finite x) (Float32.gateOf (Float32.Finite x)))
     mode (Float32.Finite drive)
     (Float32.mul (Float32.Finite range) (Float32.Finite 5)) = Float32.NaN ->
   out = Float32.NaN).
Proof.
  intros Hx Hd Hr Hv out. split.
  - intros Hm.
    assert (Hm' : (0 <= mode <= 2)%Z) by lia.
    assert (Hu : mode = 2%Z ->
                 Rabs (x * gateOf x * (range * 5)) <= 1000000000000).
    { intros E. destruct Hm as [H|[H|[_ H]]]; [lia|lia|exact H]. }
    destruct (stage32_distorted drive range mode x Hx Hd Hr Hm' Hu)
      as [d [Ed Bd]].
    unfold out.
    rewrite (stage32_finite drive range 0 volume x d mode)
      by (first [assumption|lra]).
    split; intros H; destruct (gateOf_cases x) as [[H1 Hg]|[H1 Hg]];
      try lra; rewrite Hg; f_equal; lra.
  - apply stage32_nan.
Qed.

Lemma X5_dry_path_witness :
  Float32.processSampleStage (Float32.Finite 0.5) (Float32.Finite 1)
    (Float32.Finite 0) (Float32.Finite 1) 2 (Float32.Finite 0.5) =
  Float32.Finite 0.5 /\
  Float32.processSampleStage (Float32.Finite 0.5) (Float32.Finite 1)
    (Float32.Finite 0) (Float32.Finite 1) 0 (Float32.Finite 0.005) =
  Float32.Finite (0.01 * 0.005) /\
  Float32.processSampleStage (Float32.Finite 0.5) (Float32.Finite 1)
    (Float32.Finite 0) (Float32.Finite 1) 2 (Float32.Finite 1700000000000) =
  Float32.NaN.
Proof.
  destruct (X5_dry_path 0.5 1 1 2 0.5) as [Ha _];
    [apply Rabs_def1; threshold; lra|lra|lra|lra|].
  destruct (X5_dry_path 0.5 1 1 0 0.005) as [Hb _];
    [apply Rabs_def1; threshold; lra|lra|lra|lra|].
  destruct (X5_dry_path 0.5 1 1 2 1700000000000) as [_ Hc];
    [apply Rabs_def1; threshold; lra|lra|lra|lra|].
  split; [|split].
  - apply Ha; [|rewrite Rabs_right; lra].
    right. right. split; [reflexivity|].
    pose proof (gate_range 0.5). apply Rabs_le. nra.
  - apply Hb; [left; reflexivity|rewrite Rabs_right; lra].
  - apply Hc, wavefolder_overflow_example.
Defined.

(** ** The parameter store and the preset bank *)

Lemma FloatID_eqb_neq (f g : FloatID) : g <> f -> FloatID_eqb g f = false.
Proof. intros H. destruct f, g; try reflexivity; contradiction H; reflexivity. Qed.

(** X6.  [setParamValue] on a float parameter stores the legal value of
    that parameter nearest to the argument (the multiple of 0.01 counted
    from the minimum, taken into the declared range) and touches nothing
    else: no other float parameter, not the bypass, not the current
    program.  So drive 7 is stored as 2 and drive 0.505 as 0.51, and a value
    of the range moves by at most 0.005. *)
Theorem X6_setParamValue_snaps_and_frames (f : FloatID) (v : R)
    (p : Parameters) :
  let q := setParamValue (FloatParam f) v p in
  let lo := minValue (createParameterLayout f) in
  let hi := maxValue (createParameterLayout f) in
  floatValue q f = juce.snapToLegalValue lo hi v /\
  lo <= floatValue q f <= hi /\
  onGrid lo (floatValue q f) /\
  (lo <= v <= hi -> Rabs (floatValue q f - v) <= 0.005) /\
  (forall g, g <> f -> floatValue q g = floatValue p g) /\
  boolValue q = boolValue p /\
  currentProgram q = currentProgram p.
Proof.
  intros q lo hi. unfold q.
  rewrite setParamValue_float_same, convert_roundtrip. fold lo hi.
  pose proof (layout_nonempty f) as Hne. fold lo hi in Hne.
  split; [reflexivity|]. split; [apply snap_bounds; lra|].
  split; [apply snap_result_on_grid, layout_grid|].
  split; [intros Hv; apply snap_near; assumption|].
  split; [|split; reflexivity].
  intros g Hg. apply setParamValue_float_other, FloatID_eqb_neq, Hg.
Qed.

Lemma X6_setParamValue_snaps_and_frames_witness :
  floatValue (setParamValue ParamIDs.drive 7 initialParameters) Drive = 2 /\
  floatValue (setParamValue ParamIDs.drive 0.505 initialParameters) Drive
  = 0.51 /\
  floatValue (setParamValue ParamIDs.drive 7 initialParameters) Range = 1.
Proof.
  destruct (X6_setParamValue_snaps_and_frames Drive 7 initialParameters)
    as [Hs [_ [_ [_ [Hf _]]]]].
  destruct (X6_setParamValue_snaps_and_frames Drive 0.505 initialParameters)
    as [Hs' _].
  unfold ParamIDs.drive. split; [|split].
  - rewrite Hs. cbn [minValue maxValue createParameterLayout].
    unfold juce.snapToLegalValue. cbv zeta.
    replace (Int_part ((7 - 0) / 0.01 + 0.5)) with 700%Z
      by (apply Int_part_spec; lra).
    destruct (Rle_dec _ 0); [lra|]. destruct (Rle_dec 2 0); [lra|].
    destruct (Rle_dec 2 _); lra.
  - rewrite Hs'. cbn [minValue maxValue createParameterLayout].
    unfold juce.snapToLegalValue. cbv zeta.
    replace (Int_part ((0.505 - 0) / 0.01 + 0.5)) with 51%Z
      by (apply Int_part_spec; lra).
    destruct (Rle_dec _ 0); [lra|]. destruct (Rle_dec 2 0); [lra|].
    destruct (Rle_dec 2 _); lra.
  - rewrite Hf; [reflexivity|discriminate].
Defined.

Lemma inRange_setFloat (f : FloatID) (v : R) (p : Parameters) :
  minValue (createParameterLayout f) <= v <= maxValue (createParameterLayout f) ->
  inRange p -> inRange (setFloat f v p).
Proof.
  intros Hv Hp g. simpl.
  destruct (FloatID_eqb g f) eqn:E; [|apply Hp].
  destruct f, g; try discriminate E; exact Hv.
Qed.

Lemma convertFrom0to1_in_range (f : FloatID) (n : R) :
  minValue (createParameterLayout f) <= convertFrom0to1 f n
  <= maxValue (createParameterLayout f).
Proof.
  unfold convertFrom0to1. apply snap_bounds.
  apply Rlt_le, layout_nonempty.
Qed.

Lemma inRange_setParamValue (id : ParamID) (v : R) (p : Parameters) :
  inRange p -> inRange (setParamValue id v p).
Proof.
  intros Hp. destruct id as [f|b]; simpl.
  - apply inRange_setFloat; [apply convertFrom0to1_in_range|exact Hp].
  - exact Hp.
Qed.

Lemma inRange_writeSnapshot (a b c d e g h i j : R) (p : Parameters) :
  inRange p -> inRange (writeSnapshot a b c d e g h i j p).
Proof.
  intros Hp. unfold writeSnapshot. cbv zeta.
  repeat apply inRange_setParamValue. exact Hp.
Qed.

Lemma inRange_setCurrentProgram (index : Z) (p : Parameters) :
  inRange p -> inRange (setCurrentProgram index p).
Proof.
  intros Hp. unfold setCurrentProgram. cbv zeta.
  repeat match goal with
         | |- context [match ?x with _ => _ end] => destruct x
         end;
    try apply inRange_writeSnapshot; exact Hp.
Qed.

Lemma inRange_initial : inRange initialParameters.
Proof. intros f. destruct f; simpl; lra. Qed.

(** X7.  The declared ranges are an invariant of the store: the defaults
    are in range, and [setParamValue] with any value, [setCurrentProgram]
    with any index and the editor's [setValueNotifyingHost] with any
    proportion keep every float parameter in its range. *)
Theorem X7_values_stay_in_range :
  inRange initialParameters /\
  (forall id v p, inRange p -> inRange (setParamValue id v p)) /\
  (forall index p, inRange p -> inRange (setCurrentProgram index p)) /\
  (forall id n p, inRange p -> inRange (Editor.setValueNotifyingHost id n p)).
Proof.
  split; [exact inRange_initial|].
  split; [exact inRange_setParamValue|].
  split; [exact inRange_setCurrentProgram|].
  intros id n p Hp. destruct id as [f|b]; simpl; [|exact Hp].
  apply inRange_setFloat; [apply convertFrom0to1_in_range|exact Hp].
Qed.

Lemma X7_values_stay_in_range_witness :
  inRange (setCurrentProgram 7
             (setParamValue ParamIDs.drive 9 initialParameters)).
Proof.
  destruct X7_values_stay_in_range as [H0 [Hs [Hc _]]].
  apply Hc, Hs, H0.
Defined.

Lemma static_cast_int_floor (x : R) (z : Z) :
  0 <= x -> juce.static_cast_int x = z -> IZR z <= x < IZR z + 1.
Proof.
  intros Hx H. unfold juce.static_cast_int in H.
  destruct (Rle_dec 0 x); [|contradiction]. subst z.
  pose proof (base_Int_part x). lra.
Qed.

(** X8.  On a store with its values in range the mode of line 200 is 0, 1
    or 2, so the [switch] always finds its case; it is 0 exactly below 0.5
    and 2 exactly at the top of the range, 1.0. *)
Theorem X8_decoded_mode_is_a_case (p : Parameters) :
  inRange p ->
  let v := floatValue p DistortionType in
  let m := decodeDistortionType p in
  (0 <= m <= 2)%Z /\ (m = 0%Z <-> v < 0.5) /\ (m = 2%Z <-> v = 1).
Proof.
  intros Hp v m. pose proof (Hp DistortionType) as Hv. simpl in Hv.
  fold v in Hv. unfold m, decodeDistortionType. simpl. fold v.
  assert (Hcases : v < 0.5 \/ 0.5 <= v < 1 \/ v = 1) by lra.
  destruct Hcases as [H|[H|H]].
  - rewrite (static_cast_int_nonneg (v * 2) 0) by (simpl; lra).
    repeat split; intros; try lia; try lra.
  - rewrite (static_cast_int_nonneg (v * 2) 1) by (simpl; lra).
    repeat split; intros; try lia; try lra.
  - rewrite (static_cast_int_nonneg (v * 2) 2) by (simpl; lra).
    repeat split; intros; try lia; try lra.
Qed.

Lemma X8_decoded_mode_is_a_case_witness :
  inRange initialParameters /\
  (0 <= decodeDistortionType initialParameters <= 2)%Z.
Proof.
  split; [exact inRange_initial|].
  apply (X8_decoded_mode_is_a_case initialParameters inRange_initial).
Defined.

Lemma presetConstant_some (index : Z) (f : FloatID) (c : R) :
  presetConstant index f = Some c -> (0 <= index <= 4)%Z.
Proof.
  unfold presetConstant. intros H.
  destruct index as [|q|q]; try discriminate H; [lia|].
  destruct q as [[q|q|]|[q|q|]|]; try discriminate H; try lia;
    destruct q; try discriminate H; lia.
Qed.

Lemma index_cases (index : Z) :
  (0 <= index <= 4)%Z ->
  index = 0%Z \/ index = 1%Z \/ index = 2%Z \/ index = 3%Z \/ index = 4%Z.
Proof. lia. Qed.

Lemma presetConstant_on_grid (index : Z) (f : FloatID) (c : R) :
  presetConstant index f = Some c ->
  minValue (createParameterLayout f) <= c <= maxValue (createParameterLayout f)
  /\ onGrid (minValue (createParameterLayout f)) c.
Proof.
  intros H. pose proof (presetConstant_some index f c H) as Hi.
  destruct (index_cases index Hi) as [E|[E|[E|[E|E]]]]; subst index;
    destruct f; cbv beta iota zeta delta [presetConstant] in H;
    injection H as <-; cbn [minValue maxValue createParameterLayout];
    (split; [lra|grid]).
Qed.

Lemma setCurrentProgram_reads_constant (index : Z) (f : FloatID) (c : R)
    (p : Parameters) :
  presetConstant index f = Some c ->
  minValue (createParameterLayout f) <= c <= maxValue (createParameterLayout f)
  /\ floatValue (setCurrentProgram index p) f = c.
Proof.
  intros H. pose proof (presetConstant_some index f c H) as Hi.
  destruct (presetConstant_on_grid index f c H) as [Hr Hg].
  split; [exact Hr|].
  destruct (index_cases index Hi) as [E|[E|[E|[E|E]]]]; subst index;
    unfold setCurrentProgram; rewrite writeSnapshot_float;
    (replace (match f with
              | Drive => _ | Range => _ | Blend => _ | Volume => _
              | MidFreq => _ | MidGain => _ | HighPassFreq => _
              | LowPassFreq => _ | DistortionType => _
              end) with c
       by (destruct f; cbv beta iota zeta delta [presetConstant] in H;
           injection H as <-; reflexivity));
    apply convert_roundtrip_inside; assumption.
Qed.

(** X9.  Every constant of the five presets lies inside the declared range
    of its parameter, so after [setCurrentProgram] with an index 0..4 each
    of the nine parameters reads back exactly the constant of its [case]. *)
Theorem X9_presets_read_back (index : Z) (f : FloatID) (c : R)
    (p : Parameters) :
  presetConstant index f = Some c ->
  minValue (createParameterLayout f) <= c <= maxValue (createParameterLayout f)
  /\ getRawParameterValue (setCurrentProgram index p) (FloatParam f) = c.
Proof. apply setCurrentProgram_reads_constant. Qed.

Lemma X9_presets_read_back_witness :
  presetConstant 3 MidGain = Some 9 /\
  getRawParameterValue (setCurrentProgram 3 initialParameters)
    ParamIDs.midGain = 9.
Proof.
  split; [reflexivity|].
  apply (X9_presets_read_back 3 MidGain 9 initialParameters). reflexivity.
Defined.

Lemma presetConstant_total (index : Z) (f : FloatID) :
  (0 <= index <= 4)%Z -> exists c, presetConstant index f = Some c.
Proof.
  intros Hi.
  destruct (index_cases index Hi) as [E|[E|[E|[E|E]]]]; subst index;
    eexists; reflexivity.
Qed.

(** X10.  A preset replaces the whole snapshot: for an index j of 0..4 the
    store after [setCurrentProgram j] has the same nine values and the same
    current program whatever preset or values came before, and it still has
    the bypass of the store it was applied to. *)
Theorem X10_last_preset_wins (i j : Z) (p : Parameters) :
  (0 <= j <= 4)%Z ->
  let q := setCurrentProgram j (setCurrentProgram i p) in
  (forall f, floatValue q f = floatValue (setCurrentProgram j initialParameters) f)
  /\ getCurrentProgram q = j
  /\ boolValue q = boolValue p.
Proof.
  intros Hj q. unfold q. split; [|split].
  - intros f. destruct (presetConstant_total j f Hj) as [c Hc].
    destruct (setCurrentProgram_reads_constant j f c
                (setCurrentProgram i p) Hc) as [_ H1].
    destruct (setCurrentProgram_reads_constant j f c
                initialParameters Hc) as [_ H2].
    rewrite H1, H2. reflexivity.
  - unfold getCurrentProgram. rewrite setCurrentProgram_currentProgram.
    unfold getNumPrograms. rewrite jlimitInt_spec by lia. lia.
  - rewrite !setCurrentProgram_boolValue. reflexivity.
Qed.

Lemma X10_last_preset_wins_witness :
  floatValue (setCurrentProgram 1 (setCurrentProgram 3 initialParameters))
    Drive =
  floatValue (setCurrentProgram 1 initialParameters) Drive.
Proof.
  destruct (X10_last_preset_wins 3 1 initialParameters) as [H _]; [lia|].
  apply H.
Defined.

Lemma roundToInt_half_is_one : juce.roundToInt (0.5 * 2) = 1%Z.
Proof.
  replace (0.5 * 2) with (IZR 1) by (simpl; lra). apply roundToInt_integer.
Qed.

Lemma presets_decode_alike (index : Z) (p : Parameters) :
  (0 <= index <= 4)%Z ->
  let q := setCurrentProgram index p in
  decodeDistortionType q = editorDistortionType q /\
  decodeDistortionType q =
    nth (Z.to_nat index) [0; 1; 2; 1; 0]%Z 0%Z.
Proof.
  intros Hi q. unfold q, decodeDistortionType, editorDistortionType.
  destruct (index_cases index Hi) as [E|[E|[E|[E|E]]]]; subst index.
  - destruct (setCurrentProgram_reads_constant 0 DistortionType 0 p
                eq_refl) as [_ H].
    unfold getRawParameterValue, ParamIDs.distortionType. rewrite H.
    replace (0 * 2) with (IZR 0) by (simpl; lra).
    rewrite roundToInt_integer.
    rewrite (static_cast_int_nonneg _ 0) by (simpl; lra).
    split; reflexivity.
  - destruct (setCurrentProgram_reads_constant 1 DistortionType 0.5 p
                eq_refl) as [_ H].
    unfold getRawParameterValue, ParamIDs.distortionType. rewrite H.
    rewrite roundToInt_half_is_one.
    rewrite (static_cast_int_nonneg _ 1) by (simpl; lra).
    split; reflexivity.
  - destruct (setCurrentProgram_reads_constant 2 DistortionType 1 p
                eq_refl) as [_ H].
    unfold getRawParameterValue, ParamIDs.distortionType. rewrite H.
    replace (1 * 2) with (IZR 2) by (simpl; lra).
    rewrite roundToInt_integer.
    rewrite (static_cast_int_nonneg _ 2) by (simpl; lra).
    split; reflexivity.
  - destruct (setCurrentProgram_reads_constant 3 DistortionType 0.5 p
                eq_refl) as [_ H].
    unfold getRawParameterValue, ParamIDs.distortionType. rewrite H.
    rewrite roundToInt_half_is_one.
    rewrite (static_cast_int_nonneg _ 1) by (simpl; lra).
    split; reflexivity.
  - destruct (setCurrentProgram_reads_constant 4 DistortionType 0 p
                eq_refl) as [_ H].
    unfold getRawParameterValue, ParamIDs.distortionType. rewrite H.
    replace (0 * 2) with (IZR 0) by (simpl; lra).
    rewrite roundToInt_integer.
    rewrite (static_cast_int_nonneg _ 0) by (simpl; lra).
    split; reflexivity.
Qed.

(** X11.  After a preset 0..4 the editor and the processor decode the same
    mode from distortionType, namely 0, 1, 2, 1, 0 for the five presets:
    the presets only use the values 0, 0.5 and 1, on which truncating and
    rounding agree. *)
Theorem X11_presets_decode_alike (index : Z) (p : Parameters) :
  (0 <= index <= 4)%Z ->
  let q := setCurrentProgram index p in
  decodeDistortionType q = editorDistortionType q /\
  decodeDistortionType q =
    nth (Z.to_nat index) [0; 1; 2; 1; 0]%Z 0%Z.
Proof. apply presets_decode_alike. Qed.

Lemma X11_presets_decode_alike_witness :
  decodeDistortionType (setCurrentProgram 3 initialParameters) = 1%Z.
Proof.
  destruct (X11_presets_decode_alike 3 initialParameters) as [_ H]; [lia|].
  exact H.
Defined.

(** ** Program names *)

Lemma getProgramName_in_range (index : Z) :
  (0 <= index <= 4)%Z ->
  getProgramName index = nth (Z.to_nat index) programNames String.EmptyString.
Proof.
  intros Hi. unfold getProgramName, getNumPrograms.
  destruct (Z.leb_spec 0 index); [|lia].
  destruct (Z.ltb_spec index 5); [reflexivity|lia].
Qed.

(** X12.  [getProgramName] returns the empty string exactly for the indices
    outside 0..4, and the five names it returns for 0..4 are pairwise
    different. *)
Theorem X12_program_names (i j : Z) :
  (getProgramName i = String.EmptyString <-> (i < 0 \/ 4 < i)%Z) /\
  ((0 <= i <= 4)%Z -> (0 <= j <= 4)%Z ->
   getProgramName i = getProgramName j -> i = j).
Proof.
  split.
  - split.
    + intros H. destruct (Z_lt_dec i 0); [left; assumption|].
      destruct (Z_lt_dec 4 i); [right; assumption|]. exfalso.
      assert (Hi : (0 <= i <= 4)%Z) by lia.
      rewrite (getProgramName_in_range i Hi) in H.
      destruct (index_cases i Hi) as [E|[E|[E|[E|E]]]]; subst i;
        discriminate H.
    + intros H. unfold getProgramName, getNumPrograms.
      destruct (Z.leb_spec 0 i); [|reflexivity].
      destruct (Z.ltb_spec i 5); [lia|reflexivity].
  - intros Hi Hj H.
    rewrite (getProgramName_in_range i Hi),
      (getProgramName_in_range j Hj) in H.
    destruct (index_cases i Hi) as [E|[E|[E|[E|E]]]]; subst i;
      destruct (index_cases j Hj) as [F|[F|[F|[F|F]]]]; subst j;
      try reflexivity; discriminate H.
Qed.

Lemma X12_program_names_witness :
  getProgramName 7 = String.EmptyString /\
  getProgramName 2 = "Sushi Roll"%string.
Proof.
  destruct (X12_program_names 7 2) as [[_ H] _].
  split; [apply H; lia|reflexivity].
Defined.

(** X13.  Whatever integer [setCurrentProgram] is called with, the program
    that [getCurrentProgram] then reports has a name: the clamped index
    always names one of the five presets, also where the argument itself
    (such as 7 or -1) has the empty name. *)
Theorem X13_current_program_has_a_name (index : Z) (p : Parameters) :
  getProgramName (getCurrentProgram (setCurrentProgram index p))
  <> String.EmptyString /\
  getProgramName (getCurrentProgram (setCurrentProgram index p)) =
  getProgramName (Z.max 0 (Z.min 4 index)).
Proof.
  unfold getCurrentProgram. rewrite setCurrentProgram_currentProgram.
  unfold getNumPrograms. rewrite jlimitInt_spec by lia.
  replace (5 - 1)%Z with 4%Z by lia.
  split; [|reflexivity].
  assert (Hi : (0 <= Z.max 0 (Z.min 4 index) <= 4)%Z) by lia.
  rewrite (getProgramName_in_range _ Hi).
  destruct (index_cases _ Hi) as [E|[E|[E|[E|E]]]]; rewrite E; discriminate.
Qed.

(** ** Bus layouts *)

Lemma clearUnusedOutputs_same_count (A : Type) (zero : A) (n : nat)
    (buffer : Block A) :
  clearUnusedOutputs A zero n n buffer = buffer.
Proof. unfold clearUnusedOutputs. rewrite Nat.sub_diag. reflexivity. Qed.

(** X14.  For an effect ([JucePlugin_IsSynth] off) a layout is accepted
    exactly when its output is mono or stereo and its input is the same
    set.  An accepted layout has as many input as output channels, one or
    two, so the loop that clears output channels beyond the inputs leaves
    every buffer as it is. *)
Theorem X14_supported_layouts (layouts : BusesLayout) :
  (isBusesLayoutSupported false layouts = true <->
   (mainOutputChannelSet layouts = AudioChannelSet.mono \/
    mainOutputChannelSet layouts = AudioChannelSet.stereo) /\
   mainInputChannelSet layouts = mainOutputChannelSet layouts) /\
  (isBusesLayoutSupported false layouts = true ->
   getTotalNumInputChannels layouts = getTotalNumOutputChannels layouts /\
   (getTotalNumInputChannels layouts = 1%nat \/
    getTotalNumInputChannels layouts = 2%nat) /\
   forall (A : Type) (zero : A) (buffer : Block A),
     clearUnusedOutputs A zero (getTotalNumInputChannels layouts)
       (getTotalNumOutputChannels layouts) buffer = buffer).
Proof.
  assert (Hiff :
    isBusesLayoutSupported false layouts = true <->
    (mainOutputChannelSet layouts = AudioChannelSet.mono \/
     mainOutputChannelSet layouts = AudioChannelSet.stereo) /\
    mainInputChannelSet layouts = mainOutputChannelSet layouts).
  { unfold isBusesLayoutSupported.
    destruct (N.eqb_spec (mainOutputChannelSet layouts) AudioChannelSet.mono)
      as [Em|Em];
      destruct (N.eqb_spec (mainOutputChannelSet layouts)
                  AudioChannelSet.stereo) as [Es|Es];
      destruct (N.eqb_spec (mainOutputChannelSet layouts)
                  (mainInputChannelSet layouts)) as [Ei|Ei];
      simpl; split; intros H; try discriminate H; try reflexivity;
      try (split; [tauto|congruence]);
      destruct H as [[H|H] H']; congruence. }
  split; [exact Hiff|].
  intros H. apply Hiff in H. destruct H as [Hout Hin].
  unfold getTotalNumInputChannels, getTotalNumOutputChannels.
  rewrite Hin. split; [reflexivity|]. split.
  - destruct Hout as [E|E]; rewrite E; [left|right]; reflexivity.
  - intros A zero buffer. apply clearUnusedOutputs_same_count.
Qed.

Lemma X14_supported_layouts_witness :
  let stereo :=
    {| mainInputChannelSet := AudioChannelSet.stereo;
       mainOutputChannelSet := AudioChannelSet.stereo |} in
  isBusesLayoutSupported false stereo = true /\
  getTotalNumInputChannels stereo = 2%nat.
Proof.
  intros stereo.
  destruct (X14_supported_layouts stereo) as [_ H].
  split; [reflexivity|].
  destruct (H eq_refl) as [_ [[E|E] _]]; [discriminate E|exact E].
Defined.

(** ** The phases of the block pipeline *)

Section PhaseFacts.

Variables (Sample : Type) (zero : Sample).
Variable stage : R -> R -> R -> R -> Z -> Sample -> Sample.
Variables Coefficients FilterState : Type.
Variable processSample :
  Coefficients -> FilterState -> Sample -> FilterState * Sample.
Variable makeHighPass : R -> R -> Coefficients.
Variable makeLowPass : R -> R -> R -> Coefficients.
Variable makePeakFilter : R -> R -> R -> R -> Coefficients.
Variable decibelsToGain : R -> R.
Variable Oversampling : Type.
Variable processSamplesUp :
  Oversampling -> Block Sample -> Oversampling * Block Sample.
Variable processSamplesDown :
  Oversampling -> Block Sample -> Block Sample ->
  Oversampling * Block Sample.

Local Abbreviation run :=
  (processBlock Sample zero stage Coefficients FilterState processSample
     makeHighPass makeLowPass makePeakFilter decibelsToGain
     Oversampling processSamplesUp processSamplesDown).

Local Abbreviation body :=
  (channelBody Sample stage Coefficients FilterState processSample
     Oversampling).

Local Abbreviation loop :=
  (channelLoop Sample stage Coefficients FilterState processSample
     Oversampling).

Local Abbreviation filter1 :=
  (filterChannel Sample Coefficients FilterState processSample).

Local Abbreviation filterAll :=
  (filterChannels Sample Coefficients FilterState processSample).

Local Abbreviation DspT := (Dsp Coefficients FilterState Oversampling).

(** A call that is not bypassed, phase by phase. *)
Lemma processBlock_unbypassed (numIn numOut : nat) (p : Parameters)
    (d : DspT) (buffer : Block Sample) :
  boolValue p Bypass = false ->
  run numIn numOut p d buffer =
  let buffer1 := clearUnusedOutputs Sample zero numIn numOut buffer in
  let up := processSamplesUp (oversampler d) buffer1 in
  let d1 :=
    {| highPassFilter :=
         setCoefficients Coefficients FilterState
           (makeHighPass (sampleRate d)
              (getRawParameterValue p ParamIDs.highPassFreq))
           (highPassFilter d);
       lowPassFilter :=
         setCoefficients Coefficients FilterState
           (makeLowPass (sampleRate d)
              (getRawParameterValue p ParamIDs.lowPassFreq) 0.7)
           (lowPassFilter d);
       midBoostFilter :=
         setCoefficients Coefficients FilterState
           (makePeakFilter (sampleRate d)
              (getRawParameterValue p ParamIDs.midFreq) 1
              (decibelsToGain (getRawParameterValue p ParamIDs.midGain)))
           (midBoostFilter d);
       oversampler := fst up; sampleRate := sampleRate d |} in
  let r :=
    loop (getRawParameterValue p ParamIDs.drive)
      (getRawParameterValue p ParamIDs.range)
      (getRawParameterValue p ParamIDs.blend)
      (getRawParameterValue p ParamIDs.volume)
      (decodeDistortionType p) numIn (d1, snd up) in
  let down := processSamplesDown (oversampler (fst r)) (snd r) buffer1 in
  ({| highPassFilter := highPassFilter (fst r);
      lowPassFilter := lowPassFilter (fst r);
      midBoostFilter := midBoostFilter (fst r);
      oversampler := fst down; sampleRate := sampleRate (fst r) |},
   snd down).
Proof.
  intros Hb. unfold processBlock, clearUnusedOutputs, channelLoop.
  destruct (Rlt_dec 0.5 (getRawParameterValue p ParamIDs.bypass)) as [H|_].
  - simpl in H. rewrite Hb in H. lra.
  - cbv zeta.
    destruct (processSamplesUp _ _) as [os ob]. cbn [fst snd].
    destruct (fold_left _ (seq 0 numIn) _) as [d2 b2]. cbn [fst snd].
    destruct (processSamplesDown _ _ _) as [os2 b3]. reflexivity.
Qed.

Lemma filterChannel_length (c : Coefficients) (s : FilterState)
    (samples : list Sample) :
  length (snd (filter1 c s samples)) = length samples.
Proof.
  revert s. induction samples as [|x rest IH]; intros s; [reflexivity|].
  simpl. destruct (processSample c s x) as [s1 y].
  specialize (IH s1). destruct (filter1 c s1 rest) as [s2 ys].
  simpl in *. rewrite IH. reflexivity.
Qed.

Lemma filterChannels_shape (c : Coefficients) (fs : list FilterState)
    (block : Block Sample) :
  map (@length Sample) (snd (filterAll c fs block)) =
    map (@length Sample) block /\
  length (fst (filterAll c fs block)) = length fs.
Proof.
  revert block. induction fs as [|s fs IH]; intros block.
  - split; reflexivity.
  - destruct block as [|ch rest]; [split; reflexivity|].
    simpl. pose proof (filterChannel_length c s ch) as Hl.
    destruct (filter1 c s ch) as [s1 ch1].
    destruct (IH rest) as [H1 H2].
    destruct (filterAll c fs rest) as [fs1 b1].
    simpl in *. rewrite Hl, H1, H2. split; reflexivity.
Qed.

Lemma onChannel_shape (k : nat) (g : list Sample -> list Sample)
    (block : Block Sample) :
  (forall ch, length (g ch) = length ch) ->
  map (@length Sample) (onChannel Sample k g block) =
  map (@length Sample) block.
Proof.
  intros Hg. revert k. induction block as [|ch rest IH]; intros k;
    [reflexivity|].
  destruct k; simpl; [rewrite Hg; reflexivity|].
  rewrite IH. reflexivity.
Qed.

(** What one iteration of the channel loop keeps. *)
Lemma channelBody_keeps (a b c e : R) (m : Z) (channel : nat) (d : DspT)
    (block : Block Sample) :
  let r := body a b c e m channel (d, block) in
  map (@length Sample) (snd r) = map (@length Sample) block /\
  state (highPassFilter (fst r)) = state (highPassFilter d) /\
  state (lowPassFilter (fst r)) = state (lowPassFilter d) /\
  state (midBoostFilter (fst r)) = state (midBoostFilter d) /\
  length (processors (highPassFilter (fst r))) =
    length (processors (highPassFilter d)) /\
  length (processors (lowPassFilter (fst r))) =
    length (processors (lowPassFilter d)) /\
  length (processors (midBoostFilter (fst r))) =
    length (processors (midBoostFilter d)) /\
  sampleRate (fst r) = sampleRate d /\
  oversampler (fst r) = oversampler d.
Proof.
  unfold channelBody, process.
  destruct (filterChannels_shape (state (highPassFilter d))
              (processors (highPassFilter d)) block) as [H1 L1].
  destruct (filterAll (state (highPassFilter d))
              (processors (highPassFilter d)) block) as [fs1 b1].
  destruct (filterChannels_shape (state (midBoostFilter d))
              (processors (midBoostFilter d)) b1) as [H2 L2].
  destruct (filterAll (state (midBoostFilter d))
              (processors (midBoostFilter d)) b1) as [fs2 b2].
  pose proof (onChannel_shape channel (map (stage a b c e m)) b2
                (fun ch => length_map _ ch)) as H3.
  destruct (filterChannels_shape (state (lowPassFilter d))
              (processors (lowPassFilter d))
              (onChannel Sample channel (map (stage a b c e m)) b2))
    as [H4 L4].
  destruct (filterAll (state (lowPassFilter d))
              (processors (lowPassFilter d))
              (onChannel Sample channel (map (stage a b c e m)) b2))
    as [fs3 b3].
  cbn [fst snd state processors highPassFilter lowPassFilter midBoostFilter
       sampleRate oversampler] in *.
  repeat split; try assumption.
  rewrite H4, H3, H2, H1. reflexivity.
Qed.

Lemma channelLoop_keeps (a b c e : R) (m : Z) (n : nat) :
  forall (start : nat) (d : DspT) (block : Block Sample),
    let r :=
      fold_left (fun acc channel => body a b c e m channel acc)
        (seq start n) (d, block) in
    map (@length Sample) (snd r) = map (@length Sample) block /\
    state (highPassFilter (fst r)) = state (highPassFilter d) /\
    state (lowPassFilter (fst r)) = state (lowPassFilter d) /\
    state (midBoostFilter (fst r)) = state (midBoostFilter d) /\
    length (processors (highPassFilter (fst r))) =
      length (processors (highPassFilter d)) /\
    length (processors (lowPassFilter (fst r))) =
      length (processors (lowPassFilter d)) /\
    length (processors (midBoostFilter (fst r))) =
      length (processors (midBoostFilter d)) /\
    sampleRate (fst r) = sampleRate d /\
    oversampler (fst r) = oversampler d.
Proof.
  induction n as [|n IH]; intros start d block.
  - cbn [seq fold_left fst snd]. repeat split; reflexivity.
  - cbn [seq fold_left].
    pose proof (channelBody_keeps a b c e m start d block) as Hb.
    destruct (body a b c e m start (d, block)) as [d1 b1].
    cbn [fst snd] in Hb.
    destruct Hb as [K1 [K2 [K3 [K4 [K5 [K6 [K7 [K8 K9]]]]]]]].
    specialize (IH (S start) d1 b1). cbv zeta in IH.
    destruct IH as [J1 [J2 [J3 [J4 [J5 [J6 [J7 [J8 J9]]]]]]]].
    cbv zeta.
    rewrite J1, J2, J3, J4, J5, J6, J7, J8, J9.
    repeat split; assumption.
Qed.

(** X15.  The loop over the channels changes neither the number of channels
    of the block nor the number of samples of any channel, whatever the
    filters and the stage compute and whatever the channel count of the
    loop is; every duplicator keeps its number of mono filters. *)
Theorem X15_channel_loop_keeps_the_shape (a b c e : R) (m : Z) (n : nat)
    (d : DspT) (block : Block Sample) :
  let r := loop a b c e m n (d, block) in
  map (@length Sample) (snd r) = map (@length Sample) block /\
  length (processors (highPassFilter (fst r))) =
    length (processors (highPassFilter d)) /\
  length (processors (midBoostFilter (fst r))) =
    length (processors (midBoostFilter d)) /\
  length (processors (lowPassFilter (fst r))) =
    length (processors (lowPassFilter d)).
Proof.
  intros r. unfold r, channelLoop.
  destruct (channelLoop_keeps a b c e m n 0%nat d block)
    as [J1 [_ [_ [_ [J5 [J6 [J7 _]]]]]]].
  repeat split; assumption.
Qed.

(** X16.  A call that is not bypassed leaves in each filter the
    coefficients designed from the sample rate and the parameter values of
    this call (high-pass at highPassFreq, low-pass at lowPassFreq with Q
    0.7, peak at midFreq with Q 1 and the gain of midGain decibels),
    whatever coefficients were there before, and does not change the sample
    rate. *)
Theorem X16_coefficients_follow_the_snapshot (numIn numOut : nat)
    (p : Parameters) (d : DspT) (buffer : Block Sample) :
  boolValue p Bypass = false ->
  let d' := fst (run numIn numOut p d buffer) in
  state (highPassFilter d') =
    makeHighPass (sampleRate d)
      (getRawParameterValue p ParamIDs.highPassFreq) /\
  state (lowPassFilter d') =
    makeLowPass (sampleRate d)
      (getRawParameterValue p ParamIDs.lowPassFreq) 0.7 /\
  state (midBoostFilter d') =
    makePeakFilter (sampleRate d)
      (getRawParameterValue p ParamIDs.midFreq) 1
      (decibelsToGain (getRawParameterValue p ParamIDs.midGain)) /\
  sampleRate d' = sampleRate d.
Proof.
  intros Hb d'. unfold d'.
  rewrite (processBlock_unbypassed numIn numOut p d buffer Hb).
  cbv zeta. cbn [fst highPassFilter lowPassFilter midBoostFilter sampleRate].
  unfold channelLoop.
  match goal with
  | |- context [fold_left _ (seq 0 numIn) (?d1, ?b1)] =>
      destruct (channelLoop_keeps
                  (getRawParameterValue p ParamIDs.drive)
                  (getRawParameterValue p ParamIDs.range)
                  (getRawParameterValue p ParamIDs.blend)
                  (getRawParameterValue p ParamIDs.volume)
                  (decodeDistortionType p) numIn 0%nat d1 b1)
        as [_ [J2 [J3 [J4 [_ [_ [_ [J8 _]]]]]]]]
  end.
  rewrite J2, J3, J4, J8. repeat split; reflexivity.
Qed.

Lemma nth_error_onChannel (k : nat) (g : list Sample -> list Sample)
    (block : Block Sample) (i : nat) :
  nth_error (onChannel Sample k g block) i =
  if Nat.eqb i k then option_map g (nth_error block i)
  else nth_error block i.
Proof.
  revert k i. induction block as [|ch rest IH]; intros k i.
  - simpl. destruct i; destruct (Nat.eqb _ k); reflexivity.
  - destruct k, i; simpl; try reflexivity. apply IH.
Qed.

Lemma clear_loop_nth (len : nat) :
  forall (start : nat) (buffer : Block Sample) (i : nat)
         (ch : list Sample),
    nth_error buffer i = Some ch ->
    nth_error
      (fold_left (fun b k => clear Sample zero k b) (seq start len) buffer) i
    = Some (if (Nat.leb start i && Nat.ltb i (start + len))%bool
            then repeat zero (length ch) else ch).
Proof.
  induction len as [|len IH]; intros start buffer i ch H.
  - cbn [seq fold_left]. rewrite H. f_equal.
    destruct (Nat.leb_spec start i); destruct (Nat.ltb_spec i (start + 0));
      simpl; try reflexivity; lia.
  - cbn [seq fold_left].
    assert (Hc : nth_error (clear Sample zero start buffer) i =
                 Some (if Nat.eqb i start then repeat zero (length ch)
                       else ch)).
    { unfold clear. rewrite nth_error_onChannel, H.
      destruct (Nat.eqb i start); [|reflexivity]. simpl. f_equal.
      clear. induction ch as [|x xs IHx]; simpl; [reflexivity|].
      rewrite IHx. reflexivity. }
    rewrite (IH (S start) _ i _ Hc). f_equal.
    destruct (Nat.eqb_spec i start) as [E|E].
    + subst i. rewrite repeat_length.
      destruct (Nat.leb_spec (S start) start); [lia|].
      destruct (Nat.leb_spec start start); [|lia].
      destruct (Nat.ltb_spec start (start + S len)); [|lia].
      reflexivity.
    + destruct (Nat.leb_spec (S start) i);
        destruct (Nat.ltb_spec i (S start + len));
        destruct (Nat.leb_spec start i);
        destruct (Nat.ltb_spec i (start + S len));
        simpl; try reflexivity; lia.
Qed.

(** X17.  The clearing loop before the processing zeroes exactly the
    channels from the number of inputs up to the number of outputs, keeping
    their length, and leaves every other channel of the buffer as it is; a
    channel the buffer does not have is not created. *)
Theorem X17_clear_zeroes_the_unused_outputs (numIn numOut : nat)
    (buffer : Block Sample) (i : nat) :
  (forall ch,
      nth_error buffer i = Some ch ->
      nth_error (clearUnusedOutputs Sample zero numIn numOut buffer) i =
      Some (if (Nat.leb numIn i && Nat.ltb i numOut)%bool
            then repeat zero (length ch) else ch)) /\
  length (clearUnusedOutputs Sample zero numIn numOut buffer) =
  length buffer.
Proof.
  split.
  - intros ch H. unfold clearUnusedOutputs.
    rewrite (clear_loop_nth _ _ _ _ _ H). f_equal.
    destruct (Nat.leb_spec numIn i);
      destruct (Nat.ltb_spec i (numIn + (numOut - numIn)));
      destruct (Nat.ltb_spec i numOut); simpl; try reflexivity; lia.
  - unfold clearUnusedOutputs.
    generalize (seq numIn (numOut - numIn)). intros l. revert buffer.
    induction l as [|k l IH]; intros buffer; [reflexivity|].
    cbn [fold_left]. rewrite IH. unfold clear. apply onChannel_length.
Qed.

(** X18.  A mono call that is not bypassed (one channel in and out, one
    mono filter in each duplicator, a one-channel block from the
    oversampler) hands to the way down exactly the channel that went
    through high-pass, mid-boost, the per-sample stage and low-pass, once
    each and in this order, with the coefficients and parameter values of
    this call. *)
Theorem X18_mono_call_is_one_pass (p : Parameters) (d : DspT)
    (buffer : Block Sample) (ch : list Sample) (sHp sMb sLp : FilterState) :
  boolValue p Bypass = false ->
  processors (highPassFilter d) = [sHp] ->
  processors (midBoostFilter d) = [sMb] ->
  processors (lowPassFilter d) = [sLp] ->
  snd (processSamplesUp (oversampler d) buffer) = [ch] ->
  let st :=
    stage (getRawParameterValue p ParamIDs.drive)
      (getRawParameterValue p ParamIDs.range)
      (getRawParameterValue p ParamIDs.blend)
      (getRawParameterValue p ParamIDs.volume) (decodeDistortionType p) in
  let hp :=
    snd (filter1
           (makeHighPass (sampleRate d)
              (getRawParameterValue p ParamIDs.highPassFreq)) sHp ch) in
  let mb :=
    snd (filter1
           (makePeakFilter (sampleRate d)
              (getRawParameterValue p ParamIDs.midFreq) 1
              (decibelsToGain (getRawParameterValue p ParamIDs.midGain)))
           sMb hp) in
  let lp :=
    snd (filter1
           (makeLowPass (sampleRate d)
              (getRawParameterValue p ParamIDs.lowPassFreq) 0.7)
           sLp (map st mb)) in
  snd (run 1 1 p d buffer) =
  snd (processSamplesDown (fst (processSamplesUp (oversampler d) buffer))
         [lp] buffer).
Proof.
  intros Hb Hhp Hmb Hlp Hup st hp mb lp.
  rewrite (processBlock_unbypassed 1 1 p d buffer Hb). cbv zeta.
  rewrite clearUnusedOutputs_same_count, Hup.
  unfold channelLoop. cbn [seq fold_left snd]. cbv beta.
  match goal with
  | |- context [channelBody _ _ _ _ _ _ ?a ?b ?c ?e ?m 0 (?d1, [ch])] =>
      pose proof (channelBody_keeps a b c e m 0 d1 [ch]) as Hk;
      pose proof (channelBody_mono Sample stage Coefficients FilterState
                    processSample Oversampling a b c e m d1 sHp sMb sLp ch
                    Hhp Hmb Hlp) as Hm
  end.
  cbv zeta in Hk, Hm.
  destruct Hk as [_ [_ [_ [_ [_ [_ [_ [_ Hos]]]]]]]].
  cbn [oversampler] in Hos. unfold Block in *. rewrite Hos, Hm. reflexivity.
Qed.

End PhaseFacts.

Lemma X16_coefficients_follow_the_snapshot_witness :
  state (highPassFilter
           (fst (Trace.run 2 2 initialParameters (Trace.prepared 2)
                   (Trace.inputs 2)))) = Trace.HighPassCoefs.
Proof.
  unfold Trace.run.
  match goal with
  | |- state (highPassFilter (fst (processBlock ?S ?z ?st ?C ?F ?ps ?hp ?lp
                                     ?pk ?db ?O ?up ?dn _ _ _ _ _))) = _ =>
      destruct (X16_coefficients_follow_the_snapshot S z st C F ps hp lp pk
                  db O up dn 2 2 initialParameters (Trace.prepared 2)
                  (Trace.inputs 2) eq_refl) as [H _]
  end.
  exact H.
Defined.

Lemma X17_clear_zeroes_the_unused_outputs_witness :
  nth_error
    (clearUnusedOutputs Trace.Sample Trace.Silence 1 2 (Trace.inputs 2)) 1 =
  Some [Trace.Silence].
Proof.
  destruct (X17_clear_zeroes_the_unused_outputs Trace.Sample Trace.Silence
              1 2 (Trace.inputs 2) 1) as [H _].
  apply (H [Trace.Input 1 0]). reflexivity.
Defined.

Lemma X18_mono_call_is_one_pass_witness :
  snd (Trace.run 1 1 initialParameters (Trace.prepared 1) (Trace.inputs 1)) =
  [[Trace.once (Trace.Input 0 0)]].
Proof.
  unfold Trace.run.
  rewrite (X18_mono_call_is_one_pass Trace.Sample Trace.Silence
             (fun _ _ _ _ _ => Trace.Distort) Trace.Coefficients unit
             Trace.processSample (fun _ _ => Trace.HighPassCoefs)
             (fun _ _ _ => Trace.LowPassCoefs)
             (fun _ _ _ _ => Trace.PeakCoefs) (fun g => g) unit
             (fun os b => (os, b)) (fun os b _ => (os, b))
             initialParameters (Trace.prepared 1) (Trace.inputs 1)
             [Trace.Input 0 0] tt tt tt
             eq_refl eq_refl eq_refl eq_refl eq_refl).
  reflexivity.
Defined.

(** *** How often each stage runs on a sample *)

Lemma stageCounts_filters (k m : nat) (x : Trace.Sample) :
  stageCounts k m x ->
  stageCounts (S k) m (Trace.LowPass (Trace.MidBoost (Trace.HighPass x))).
Proof.
  intros [H1 [H2 [H3 H4]]]. unfold stageCounts. simpl.
  rewrite H1, H2, H3, H4. repeat split; reflexivity.
Qed.

Lemma stageCounts_filters_distort (k m : nat) (x : Trace.Sample) :
  stageCounts k m x ->
  stageCounts (S k) (S m)
    (Trace.LowPass (Trace.Distort (Trace.MidBoost (Trace.HighPass x)))).
Proof.
  intros [H1 [H2 [H3 H4]]]. unfold stageCounts. simpl.
  rewrite H1, H2, H3, H4. repeat split; reflexivity.
Qed.

Lemma trace_channelBody_nth (a b c e : R) (m : Z) (k i : nat)
    (block : list (list Trace.Sample)) (ch : list Trace.Sample) :
  nth_error block i = Some ch ->
  nth_error
    (snd (channelBody Trace.Sample (fun _ _ _ _ _ => Trace.Distort)
            Trace.Coefficients unit Trace.processSample unit a b c e m k
            (Trace.prepared (length block), block))) i =
  Some (if Nat.eqb i k
        then map (fun x => Trace.once x) ch
        else map (fun x => Trace.LowPass (Trace.MidBoost (Trace.HighPass x)))
               ch).
Proof.
  intros H. rewrite trace_channelBody. cbn [snd].
  rewrite nth_error_map, nth_error_onChannel, !nth_error_map, H.
  destruct (Nat.eqb i k); simpl; rewrite !map_map; reflexivity.
Qed.

Lemma loopInvariant_step (a b c e : R) (m : Z) (k : nat)
    (block : list (list Trace.Sample)) :
  loopInvariant k block ->
  loopInvariant (S k)
    (snd (channelBody Trace.Sample (fun _ _ _ _ _ => Trace.Distort)
            Trace.Coefficients unit Trace.processSample unit a b c e m k
            (Trace.prepared (length block), block))).
Proof.
  intros Hinv i ch' Hn.
  destruct (nth_error block i) as [ch|] eqn:E.
  - rewrite (trace_channelBody_nth a b c e m k i block ch E) in Hn.
    injection Hn as <-. specialize (Hinv i ch E).
    destruct (Nat.eqb_spec i k) as [Ek|Ek].
    + subst i. rewrite Nat.ltb_irrefl in Hinv.
      replace (Nat.ltb k (S k)) with true
        by (symmetry; apply Nat.ltb_lt; lia).
      apply Forall_map. revert Hinv. apply Forall_impl. intros x Hx.
      apply stageCounts_filters_distort. exact Hx.
    + replace (Nat.ltb i (S k)) with (Nat.ltb i k).
      * apply Forall_map. revert Hinv. apply Forall_impl. intros x Hx.
        apply stageCounts_filters. exact Hx.
      * destruct (Nat.ltb_spec i k); destruct (Nat.ltb_spec i (S k));
          try reflexivity; lia.
  - exfalso.
    assert (Hl : (length block <= i)%nat) by (apply nth_error_None; exact E).
    destruct (trace_channelBody_shape a b c e m k block) as [_ Hs].
    cbv zeta in Hs.
    assert (Hn' : nth_error
                    (snd (channelBody Trace.Sample
                            (fun _ _ _ _ _ => Trace.Distort)
                            Trace.Coefficients unit Trace.processSample unit
                            a b c e m k
                            (Trace.prepared (length block), block))) i = None)
      by (apply nth_error_None; rewrite Hs; exact Hl).
    rewrite Hn' in Hn. discriminate Hn.
Qed.

Lemma loopInvariant_loop (a b c e : R) (m : Z) (len : nat) :
  forall (start : nat) (block : list (list Trace.Sample)),
    loopInvariant start block ->
    let r :=
      fold_left
        (fun acc channel =>
           channelBody Trace.Sample (fun _ _ _ _ _ => Trace.Distort)
             Trace.Coefficients unit Trace.processSample unit a b c e m
             channel acc)
        (seq start len) (Trace.prepared (length block), block) in
    loopInvariant (start + len) (snd r) /\ length (snd r) = length block.
Proof.
  induction len as [|len IH]; intros start block H.
  - cbn [seq fold_left snd]. rewrite Nat.add_0_r. split; [exact H|reflexivity].
  - cbn [seq fold_left].
    destruct (trace_channelBody_shape a b c e m start block) as [Hd Hl].
    pose proof (loopInvariant_step a b c e m start block H) as Hc.
    destruct (channelBody _ _ _ _ _ _ a b c e m start
                (Trace.prepared (length block), block)) as [d1 b1].
    cbn [fst snd] in Hd, Hl, Hc. subst d1. rewrite <- Hl.
    replace (start + S len)%nat with (S start + len)%nat by lia.
    apply IH. exact Hc.
Qed.

Lemma inputs_invariant (n : nat) : loopInvariant 0 (Trace.inputs n).
Proof.
  intros i ch H. unfold Trace.inputs in H.
  rewrite nth_error_map in H.
  destruct (nth_error (seq 0 n) i); [|discriminate H].
  injection H as <-. repeat constructor.
Qed.

Lemma loopInvariant_all (n : nat) (block : list (list Trace.Sample)) :
  loopInvariant n block -> length block = n ->
  Forall (Forall (stageCounts n 1)) block.
Proof.
  intros Hinv Hlen. apply Forall_forall. intros ch Hin.
  destruct (In_nth_error _ _ Hin) as [i Hi].
  specialize (Hinv i ch Hi).
  assert (Hlt : (i < n)%nat).
  { rewrite <- Hlen. apply nth_error_Some. intros Hc.
    rewrite Hc in Hi. discriminate Hi. }
  replace (Nat.ltb i n) with true in Hinv
    by (symmetry; apply Nat.ltb_lt; exact Hlt).
  exact Hinv.
Qed.

(** X19.  In a call with [n] channels in and out, not bypassed, every
    sample of the processed block has been through the high-pass, the
    mid-boost and the low-pass section [n] times each, and through the
    gate-and-distortion stage exactly once. *)
Theorem X19_filters_run_once_per_channel_count (n : nat) :
  let out :=
    snd (Trace.run n n initialParameters (Trace.prepared n)
           (Trace.inputs n)) in
  length out = n /\ Forall (Forall (stageCounts n 1)) out.
Proof.
  intros out. unfold out.
  rewrite trace_run_unbypassed by reflexivity.
  cbv zeta. cbn [snd]. rewrite Nat.sub_diag. cbn [seq fold_left].
  pose proof (loopInvariant_loop
                (getRawParameterValue initialParameters ParamIDs.drive)
                (getRawParameterValue initialParameters ParamIDs.range)
                (getRawParameterValue initialParameters ParamIDs.blend)
                (getRawParameterValue initialParameters ParamIDs.volume)
                (decodeDistortionType initialParameters)
                n 0%nat (Trace.inputs n) (inputs_invariant n)) as H.
  cbv zeta in H. rewrite inputs_length in H. cbn [Nat.add] in H.
  destruct H as [Hinv Hlen].
  split; [exact Hlen|].
  apply loopInvariant_all; [exact Hinv|exact Hlen].
Qed.

(** ** The editor *)

Lemma setValueNotifyingHost_distortionType (k : Z) (p : Parameters) :
  (0 <= k <= 2)%Z ->
  getRawParameterValue
    (Editor.setValueNotifyingHost ParamIDs.distortionType (IZR k / 2) p)
    ParamIDs.distortionType = IZR k / 2.
Proof.
  intros Hk. assert (Hr : 0 <= IZR k <= 2) by (split; apply IZR_le; lia).
  unfold getRawParameterValue, ParamIDs.distortionType.
  cbn [Editor.setValueNotifyingHost setFloat floatValue].
  rewrite FloatID_eqb_refl. unfold convertFrom0to1.
  cbn [minValue maxValue createParameterLayout].
  rewrite (jlimit_inside 0 1 (IZR k / 2)) by lra.
  replace (0 + (1 - 0) * (IZR k / 2)) with (IZR k / 2) by lra.
  apply snap_on_grid; [lra|lra|apply button_value_on_grid].
Qed.

(** X20.  A click on the distortion button k (0, 1 or 2) of an initialised
    editor sets distortionType to k / 2, from which the processor decodes
    mode k and the editor decodes k as well; exactly the button k is on; no
    other parameter changes.  Before the components are initialised the
    call changes nothing. *)
Theorem X20_distortion_button_sets_the_mode (k : Z) (e : Editor.State)
    (p : Parameters) :
  (0 <= k <= 2)%Z ->
  let r := Editor.updateDistortionType k (e, p) in
  (Editor.componentsInitialized e = true ->
   decodeDistortionType (snd r) = k /\
   editorDistortionType (snd r) = k /\
   Editor.waButton (fst r) = (k =? 0)%Z /\
   Editor.saButton (fst r) = (k =? 1)%Z /\
   Editor.biButton (fst r) = (k =? 2)%Z /\
   (forall f, f <> DistortionType ->
              floatValue (snd r) f = floatValue p f) /\
   boolValue (snd r) = boolValue p) /\
  (Editor.componentsInitialized e = false -> r = (e, p)).
Proof.
  intros Hk r. unfold r, Editor.updateDistortionType.
  assert (Hr : 0 <= IZR k <= 2) by (split; apply IZR_le; lia).
  split; intros Hi; rewrite Hi; [|reflexivity].
  cbn [fst snd]. unfold decodeDistortionType, editorDistortionType.
  rewrite !(setValueNotifyingHost_distortionType k p Hk).
  replace (IZR k / 2 * 2) with (IZR k) by field.
  repeat split.
  - apply static_cast_int_nonneg; lra.
  - apply roundToInt_integer.
  - intros f Hf. simpl. rewrite (FloatID_eqb_neq _ _ Hf). reflexivity.
Qed.

Lemma X20_distortion_button_sets_the_mode_witness :
  let e :=
    {| Editor.componentsInitialized := true;
       Editor.waButton := true; Editor.saButton := false;
       Editor.biButton := false; Editor.bypassButton := false;
       Editor.presetBox := 1%Z; Editor.xyPad := None |} in
  decodeDistortionType
    (snd (Editor.updateDistortionType 2 (e, initialParameters))) = 2%Z.
Proof.
  intros e.
  destruct (X20_distortion_button_sets_the_mode 2 e initialParameters)
    as [H _]; [lia|].
  destruct (H eq_refl) as [Hd _]. exact Hd.
Defined.

Lemma bypass_on_value : juce.jlimit 0 1 1 = 1.
Proof. apply jlimit_inside. lra. Qed.

Lemma bypass_off_value : juce.jlimit 0 1 0 = 0.
Proof. apply jlimit_inside. lra. Qed.

Lemma bypassButtonClicked_spec (e : Editor.State) (p : Parameters) :
  let r := Editor.bypassButtonClicked (e, p) in
  Editor.bypassButton (fst r) = negb (Editor.bypassButton e) /\
  boolValue (snd r) Bypass = negb (Editor.bypassButton e) /\
  floatValue (snd r) = floatValue p /\
  currentProgram (snd r) = currentProgram p.
Proof.
  unfold Editor.bypassButtonClicked. cbn [fst snd].
  destruct (Editor.bypassButton e); simpl.
  - rewrite bypass_off_value.
    destruct (Rle_dec 0.5 0); [lra|]. repeat split; reflexivity.
  - rewrite bypass_on_value.
    destruct (Rle_dec 0.5 1); [|lra]. repeat split; reflexivity.
Qed.

Section EditorAndPipeline.

Variables (Sample : Type) (zero : Sample).
Variable stage : R -> R -> R -> R -> Z -> Sample -> Sample.
Variables Coefficients FilterState : Type.
Variable processSample :
  Coefficients -> FilterState -> Sample -> FilterState * Sample.
Variable makeHighPass : R -> R -> Coefficients.
Variable makeLowPass : R -> R -> R -> Coefficients.
Variable makePeakFilter : R -> R -> R -> R -> Coefficients.
Variable decibelsToGain : R -> R.
Variable Oversampling : Type.
Variable processSamplesUp :
  Oversampling -> Block Sample -> Oversampling * Block Sample.
Variable processSamplesDown :
  Oversampling -> Block Sample -> Block Sample ->
  Oversampling * Block Sample.

Local Abbreviation run :=
  (processBlock Sample zero stage Coefficients FilterState processSample
     makeHighPass makeLowPass makePeakFilter decibelsToGain
     Oversampling processSamplesUp processSamplesDown).

(** X21.  A click on the bypass button makes the bypass parameter equal to
    the new state of the button (not to the opposite of the parameter), and
    changes no other parameter; when the button is then on, a process call
    returns its buffer untouched; a second click brings the parameter to
    the state the button had at first. *)
Theorem X21_bypass_button_drives_the_bypass (e : Editor.State)
    (p : Parameters) :
  let r := Editor.bypassButtonClicked (e, p) in
  let r2 := Editor.bypassButtonClicked r in
  boolValue (snd r) Bypass = Editor.bypassButton (fst r) /\
  Editor.bypassButton (fst r) = negb (Editor.bypassButton e) /\
  floatValue (snd r) = floatValue p /\
  boolValue (snd r2) Bypass = Editor.bypassButton e /\
  (Editor.bypassButton (fst r) = true ->
   forall numIn numOut d buffer,
     run numIn numOut (snd r) d buffer = (d, buffer)).
Proof.
  intros r r2.
  destruct (bypassButtonClicked_spec e p) as [H1 [H2 [H3 _]]].
  fold r in H1, H2, H3.
  assert (H4 : boolValue (snd r2) Bypass = Editor.bypassButton e).
  { unfold r2. destruct r as [e1 p1].
    destruct (bypassButtonClicked_spec e1 p1) as [_ [K2 _]].
    cbn [fst snd] in *. rewrite K2, H1. apply negb_involutive. }
  split; [congruence|]. split; [exact H1|]. split; [exact H3|].
  split; [exact H4|].
  intros Hon numIn numOut d buffer. unfold processBlock.
  destruct (Rlt_dec 0.5 (getRawParameterValue (snd r) ParamIDs.bypass))
    as [_|Hn]; [reflexivity|].
  exfalso. apply Hn. unfold getRawParameterValue, ParamIDs.bypass.
  rewrite H2, <- H1, Hon. lra.
Qed.

End EditorAndPipeline.

Lemma X21_bypass_button_drives_the_bypass_witness :
  let e :=
    {| Editor.componentsInitialized := true;
       Editor.waButton := true; Editor.saButton := false;
       Editor.biButton := false; Editor.bypassButton := false;
       Editor.presetBox := 1%Z; Editor.xyPad := None |} in
  Trace.run 2 2 (snd (Editor.bypassButtonClicked (e, initialParameters)))
    (Trace.prepared 2) (Trace.inputs 2) =
  (Trace.prepared 2, Trace.inputs 2).
Proof.
  intros e. unfold Trace.run.
  match goal with
  | |- processBlock ?S ?z ?st ?C ?F ?ps ?hp ?lp ?pk ?db ?O ?up ?dn
         _ _ _ _ _ = _ =>
      destruct (X21_bypass_button_drives_the_bypass S z st C F ps hp lp pk
                  db O up dn e initialParameters) as [_ [_ [_ [_ H]]]]
  end.
  apply H. reflexivity.
Defined.

(** *** The pad and the preset box *)

(** What [updateSliders] does on a pad whose sliders are attached: both
    sliders and both parameters take the legal values nearest to the
    arguments, nothing else changes. *)
Lemma updateSliders_spec (freq gain : R) (pad : Editor.XYPad)
    (p : Parameters) :
  padAttached pad ->
  let r := Editor.updateSliders freq gain (pad, p) in
  let F := juce.snapToLegalValue (minValue (createParameterLayout MidFreq))
             (maxValue (createParameterLayout MidFreq)) freq in
  let G := juce.snapToLegalValue (minValue (createParameterLayout MidGain))
             (maxValue (createParameterLayout MidGain)) gain in
  padAttached (fst r) /\
  Editor.value (Editor.midFreqSlider (fst r)) = F /\
  Editor.value (Editor.midGainSlider (fst r)) = G /\
  floatValue (snd r) MidFreq = F /\
  floatValue (snd r) MidGain = G /\
  (forall f, f <> MidFreq -> f <> MidGain ->
             floatValue (snd r) f = floatValue p f) /\
  boolValue (snd r) = boolValue p /\
  currentProgram (snd r) = currentProgram p.
Proof.
  intros [A1 [A2 [A3 A4]]] r F G.
  unfold r, Editor.updateSliders, Editor.sliderValueChanged, Editor.setValue.
  cbn [fst snd Editor.midFreqSlider Editor.midGainSlider Editor.value
       Editor.minimum Editor.maximum].
  rewrite A1, A2, A3, A4. fold F G.
  split; [repeat split; assumption|].
  split; [reflexivity|]. split; [reflexivity|].
  split; [|split; [|split; [|split]]].
  - rewrite setParamValue_float_other by reflexivity.
    rewrite setParamValue_float_same, convert_roundtrip.
    unfold F. apply snap_idempotent;
      [apply layout_nonempty|apply layout_grid].
  - rewrite setParamValue_float_same, convert_roundtrip.
    unfold G. apply snap_idempotent;
      [apply layout_nonempty|apply layout_grid].
  - intros f Hf Hg.
    rewrite setParamValue_float_other by (apply FloatID_eqb_neq; exact Hg).
    apply setParamValue_float_other, FloatID_eqb_neq, Hf.
  - reflexivity.
  - reflexivity.
Qed.

Lemma decode_depends_on_value (p q : Parameters) :
  floatValue p DistortionType = floatValue q DistortionType ->
  decodeDistortionType p = decodeDistortionType q.
Proof.
  intros H. unfold decodeDistortionType, getRawParameterValue,
    ParamIDs.distortionType. rewrite H. reflexivity.
Qed.

Lemma bypass_toggle_of_raw (p : Parameters) :
  (if Rlt_dec 0.5 (getRawParameterValue p ParamIDs.bypass)
   then true else false) = boolValue p Bypass.
Proof.
  simpl. destruct (boolValue p Bypass).
  - destruct (Rlt_dec 0.5 1); [reflexivity|lra].
  - destruct (Rlt_dec 0.5 0); [lra|reflexivity].
Qed.

(** X22.  Choosing an item of the preset box.  The box ends on the id
    limited to 1..5.  For an id of 1..5 the store ends with exactly the
    values of that preset, the bypass is untouched and the bypass button
    shows it, the one distortion button that is on is the mode the
    processor decodes, and the sliders of the pad show the preset's
    midFreq and midGain. *)
Theorem X22_preset_box_selection (selectedId : Z) (e : Editor.State)
    (p : Parameters) :
  (forall pad, Editor.xyPad e = Some pad -> padAttached pad) ->
  let r := Editor.comboBoxChanged selectedId (e, p) in
  let q := setCurrentProgram (selectedId - 1) p in
  Editor.presetBox (fst r) = Z.max 1 (Z.min 5 selectedId) /\
  ((1 <= selectedId <= 5)%Z ->
   (forall f, floatValue (snd r) f = floatValue q f) /\
   boolValue (snd r) = boolValue p /\
   Editor.bypassButton (fst r) = boolValue p Bypass /\
   Editor.waButton (fst r) = (decodeDistortionType (snd r) =? 0)%Z /\
   Editor.saButton (fst r) = (decodeDistortionType (snd r) =? 1)%Z /\
   Editor.biButton (fst r) = (decodeDistortionType (snd r) =? 2)%Z /\
   (forall pad,
       Editor.xyPad (fst r) = Some pad ->
       Editor.value (Editor.midFreqSlider pad) = floatValue q MidFreq /\
       Editor.value (Editor.midGainSlider pad) = floatValue q MidGain)).
Proof.
  intros Hpad r q. unfold r, Editor.comboBoxChanged. fold q.
  cbn [fst snd Editor.presetBox Editor.bypassButton Editor.waButton
       Editor.saButton Editor.biButton Editor.xyPad
       Editor.setDistortionButtons].
  split.
  - unfold q, getCurrentProgram. rewrite setCurrentProgram_currentProgram.
    unfold getNumPrograms. rewrite jlimitInt_spec by lia. lia.
  - intros Hid.
    assert (Hi : (0 <= selectedId - 1 <= 4)%Z) by lia.
    destruct (presetConstant_total (selectedId - 1) MidFreq Hi) as [cf Hcf].
    destruct (presetConstant_total (selectedId - 1) MidGain Hi) as [cg Hcg].
    destruct (setCurrentProgram_reads_constant _ _ _ p Hcf) as [Rf Vf].
    destruct (setCurrentProgram_reads_constant _ _ _ p Hcg) as [Rg Vg].
    destruct (presetConstant_on_grid _ _ _ Hcf) as [_ Gf].
    destruct (presetConstant_on_grid _ _ _ Hcg) as [_ Gg].
    fold q in Vf, Vg.
    destruct (presets_decode_alike (selectedId - 1) p Hi) as [Hdec _].
    fold q in Hdec.
    assert (Hbool : boolValue q = boolValue p)
      by apply setCurrentProgram_boolValue.
    rewrite bypass_toggle_of_raw, Hbool.
    destruct (Editor.xyPad e) as [pad|] eqn:Epad.
    + destruct (updateSliders_spec
                  (getRawParameterValue q ParamIDs.midFreq)
                  (getRawParameterValue q ParamIDs.midGain) pad q
                  (Hpad pad eq_refl))
        as [_ [S1 [S2 [P1 [P2 [P3 [P4 _]]]]]]].
      destruct (Editor.updateSliders _ _ (pad, q)) as [pad' q'].
      cbn [fst snd] in *.
      unfold getRawParameterValue, ParamIDs.midFreq, ParamIDs.midGain
        in S1, S2, P1, P2.
      rewrite (snap_on_grid _ _ (floatValue q MidFreq)) in S1, P1
        by (try rewrite Vf; first [apply layout_nonempty|assumption]).
      rewrite (snap_on_grid _ _ (floatValue q MidGain)) in S2, P2
        by (try rewrite Vg; first [apply layout_nonempty|assumption]).
      assert (Hall : forall f, floatValue q' f = floatValue q f).
      { intros f. destruct f; try (apply P3; discriminate);
          [exact P1|exact P2]. }
      rewrite (decode_depends_on_value q' q (Hall DistortionType)).
      rewrite <- Hdec.
      split; [exact Hall|]. split; [congruence|].
      split; [reflexivity|]. split; [reflexivity|].
      split; [reflexivity|]. split; [reflexivity|].
      intros pad0 H0. injection H0 as <-. split; assumption.
    + cbn [fst snd]. rewrite <- Hdec.
      split; [reflexivity|]. split; [exact Hbool|].
      split; [reflexivity|]. split; [reflexivity|].
      split; [reflexivity|]. split; [reflexivity|].
      intros pad0 H0. discriminate H0.
Qed.

Lemma X22_preset_box_selection_witness :
  let e :=
    {| Editor.componentsInitialized := true;
       Editor.waButton := true; Editor.saButton := false;
       Editor.biButton := false; Editor.bypassButton := false;
       Editor.presetBox := 1%Z;
       Editor.xyPad := Some (Editor.newXYPad initialParameters) |} in
  Editor.presetBox (fst (Editor.comboBoxChanged 3 (e, initialParameters)))
  = 3%Z /\
  Editor.biButton (fst (Editor.comboBoxChanged 3 (e, initialParameters)))
  = true.
Proof.
  intros e.
  assert (Hpad : forall pad, Editor.xyPad e = Some pad -> padAttached pad).
  { intros pad H. injection H as <-. repeat split; reflexivity. }
  destruct (X22_preset_box_selection 3 e initialParameters Hpad)
    as [Hbox Hrest].
  split; [exact Hbox|].
  destruct Hrest as [Hv [_ [_ [_ [_ [Hbi _]]]]]]; [lia|].
  rewrite Hbi.
  rewrite (decode_depends_on_value _ (setCurrentProgram 2 initialParameters)
             (Hv DistortionType)).
  destruct (presets_decode_alike 2 initialParameters) as [_ Hd]; [lia|].
  rewrite Hd. reflexivity.
Defined.

Lemma jlimit_unit_scaled (a d : R) :
  0 < d -> juce.jlimit 0 1 (a / d) * d = juce.jlimit 0 d a.
Proof.
  intros Hd.
  assert (Ht : a / d * d = a) by (field; lra).
  set (t := a / d) in *. unfold juce.jlimit.
  destruct (Rlt_dec t 0); destruct (Rlt_dec a 0);
    destruct (Rlt_dec 1 t); destruct (Rlt_dec d a); nra.
Qed.

Lemma jlimit_shift (lo hi v s : R) :
  juce.jlimit lo hi v + s = juce.jlimit (lo + s) (hi + s) (v + s).
Proof.
  unfold juce.jlimit.
  destruct (Rlt_dec v lo); destruct (Rlt_dec (v + s) (lo + s));
    destruct (Rlt_dec hi v); destruct (Rlt_dec (hi + s) (v + s)); lra.
Qed.

Lemma updatePosition_large (width height ex ey : Z) (pad : Editor.XYPad)
    (p : Parameters) :
  (10 < width)%Z -> (10 < height)%Z ->
  Editor.updatePosition width height ex ey (pad, p) =
  Editor.updateSliders
    (Editor.minimum (Editor.midFreqSlider pad)
     + juce.jlimit 0 1 (IZR (ex - 5) / IZR (width - 10))
       * (Editor.maximum (Editor.midFreqSlider pad)
          - Editor.minimum (Editor.midFreqSlider pad)))
    (Editor.minimum (Editor.midGainSlider pad)
     + juce.jlimit 0 1
         (IZR (height - 10 - (ey - 5)) / IZR (height - 10))
       * (Editor.maximum (Editor.midGainSlider pad)
          - Editor.minimum (Editor.midGainSlider pad)))
    (pad, p).
Proof.
  intros Hw Hh. unfold Editor.updatePosition, Editor.updateSliders.
  replace (5 * 2)%Z with 10%Z by reflexivity.
  rewrite !Z.max_r by lia.
  destruct (Z.leb_spec (width - 10) 0); [lia|].
  destruct (Z.leb_spec (height - 10) 0); [lia|].
  reflexivity.
Qed.

(** The position of a mouse event relative to the inner rectangle, as
    [updatePosition] computes it. *)
Lemma relative_position_edges (extent e : Z) :
  (0 < extent)%Z ->
  let t := juce.jlimit 0 1 (IZR e / IZR extent) in
  0 <= t <= 1 /\ ((e <= 0)%Z -> t = 0) /\ ((extent <= e)%Z -> t = 1).
Proof.
  intros He t.
  assert (Hd : 0 < IZR extent) by (apply IZR_lt; lia).
  split; [apply jlimit_bounds; lra|]. split; intros H; unfold t.
  - assert (Ha : IZR e <= 0) by (apply IZR_le; lia).
    assert (Hq : IZR e / IZR extent <= 0).
    { apply (Rmult_le_reg_r (IZR extent)); [exact Hd|].
      unfold Rdiv. rewrite Rmult_assoc, Rinv_l by lra. lra. }
    unfold juce.jlimit.
    destruct (Rlt_dec _ 0); [reflexivity|].
    destruct (Rlt_dec 1 _); lra.
  - assert (Ha : IZR extent <= IZR e) by (apply IZR_le; lia).
    assert (Hq : 1 <= IZR e / IZR extent).
    { apply (Rmult_le_reg_r (IZR extent)); [exact Hd|].
      unfold Rdiv. rewrite Rmult_assoc, Rinv_l by lra. lra. }
    unfold juce.jlimit.
    destruct (Rlt_dec _ 0); [lra|].
    destruct (Rlt_dec 1 _); lra.
Qed.

(** What a mouse event leaves in the sliders of an attached pad and in the
    store: the legal values nearest to 500 + x 1500 and to 12 y. *)
Lemma updatePosition_values (width height ex ey : Z) (pad : Editor.XYPad)
    (p : Parameters) :
  padAttached pad -> (10 < width)%Z -> (10 < height)%Z ->
  let r := Editor.updatePosition width height ex ey (pad, p) in
  let x := juce.jlimit 0 1 (IZR (ex - 5) / IZR (width - 10)) in
  let y :=
    juce.jlimit 0 1 (IZR (height - 10 - (ey - 5)) / IZR (height - 10)) in
  let F := juce.snapToLegalValue 500 2000 (500 + x * 1500) in
  let G := juce.snapToLegalValue 0 12 (y * 12) in
  padAttached (fst r) /\
  Editor.value (Editor.midFreqSlider (fst r)) = F /\
  Editor.value (Editor.midGainSlider (fst r)) = G /\
  floatValue (snd r) MidFreq = F /\
  floatValue (snd r) MidGain = G /\
  (forall f, f <> MidFreq -> f <> MidGain ->
             floatValue (snd r) f = floatValue p f) /\
  boolValue (snd r) = boolValue p.
Proof.
  intros Hpad Hw Hh r x y F G.
  unfold r. rewrite (updatePosition_large _ _ _ _ _ _ Hw Hh).
  match goal with
  | |- context [Editor.updateSliders ?f ?g (pad, p)] =>
      destruct (updateSliders_spec f g pad p Hpad)
        as [B [S1 [S2 [P1 [P2 [P3 [P4 _]]]]]]];
      destruct (Editor.updateSliders f g (pad, p)) as [pad' q']
  end.
  cbn [fst snd] in *. destruct Hpad as [A1 [A2 [A3 A4]]].
  rewrite A1, A2 in S1, P1. rewrite A3, A4 in S2, P2.
  cbn [minValue maxValue createParameterLayout] in S1, S2, P1, P2.
  fold x in S1, P1. fold y in S2, P2.
  replace (500 + x * (2000 - 500)) with (500 + x * 1500) in S1, P1 by lra.
  replace (0 + y * (12 - 0)) with (y * 12) in S2, P2 by lra.
  fold F in S1, P1. fold G in S2, P2.
  exact (conj B (conj S1 (conj S2 (conj P1 (conj P2 (conj P3 P4)))))).
Qed.

(** The mouse at (60, 40) on a pad of 175 by 100 pixels: x is 1/3, y is
    11/18, and the legal values nearest to 500 + 1500/3 and to 12 * 11/18
    are 1000 and 7.33. *)
Lemma pad_example_position :
  juce.jlimit 0 1 (IZR (60 - 5) / IZR (175 - 10)) = 1 / 3 /\
  juce.jlimit 0 1 (IZR (100 - 10 - (40 - 5)) / IZR (100 - 10)) = 11 / 18.
Proof.
  replace (60 - 5)%Z with 55%Z by reflexivity.
  replace (175 - 10)%Z with 165%Z by reflexivity.
  replace (100 - 10 - (40 - 5))%Z with 55%Z by reflexivity.
  replace (100 - 10)%Z with 90%Z by reflexivity.
  split; rewrite jlimit_inside; lra.
Qed.

Lemma pad_example_values :
  juce.snapToLegalValue 500 2000 (500 + 1 / 3 * 1500) = 1000 /\
  juce.snapToLegalValue 0 12 (11 / 18 * 12) = 7.33.
Proof.
  split.
  - replace (500 + 1 / 3 * 1500) with 1000 by lra.
    apply snap_on_grid; [lra|lra|grid].
  - unfold juce.snapToLegalValue. cbv zeta.
    replace (Int_part ((11 / 18 * 12 - 0) / 0.01 + 0.5)) with 733%Z
      by (apply Int_part_spec; lra).
    destruct (Rle_dec _ 0); [lra|]. destruct (Rle_dec 12 0); [lra|].
    destruct (Rle_dec 12 _); lra.
Qed.

(** X23.  A mouse event on a pad wider and higher than 10 pixels, whose
    sliders are attached, sets midFreq and midGain to the legal values (the
    multiples of 0.01) nearest to 500 + x 1500 and to 12 y, where x and y
    are the position relative to the inner rectangle limited to 0..1, y
    counted from the bottom.  The stored values are within 0.005 of those
    two, within 500..2000 and 0..12; the left and right edges give exactly
    500 and 2000, the top and bottom edges exactly 12 and 0; no other
    parameter changes.  On a pad of at most 10 pixels in either direction
    the event does nothing. *)
Theorem X23_pad_position_sets_freq_and_gain (width height ex ey : Z)
    (pad : Editor.XYPad) (p : Parameters) :
  padAttached pad ->
  let r := Editor.updatePosition width height ex ey (pad, p) in
  ((10 < width)%Z -> (10 < height)%Z ->
   let x := juce.jlimit 0 1 (IZR (ex - 5) / IZR (width - 10)) in
   let y :=
     juce.jlimit 0 1 (IZR (height - 10 - (ey - 5)) / IZR (height - 10)) in
   let freq := getRawParameterValue (snd r) ParamIDs.midFreq in
   let gain := getRawParameterValue (snd r) ParamIDs.midGain in
   freq = juce.snapToLegalValue 500 2000 (500 + x * 1500) /\
   gain = juce.snapToLegalValue 0 12 (y * 12) /\
   Rabs (freq - (500 + x * 1500)) <= 0.005 /\
   Rabs (gain - y * 12) <= 0.005 /\
   onGrid 500 freq /\ onGrid 0 gain /\
   500 <= freq <= 2000 /\ 0 <= gain <= 12 /\
   ((ex <= 5)%Z -> freq = 500) /\ ((width - 5 <= ex)%Z -> freq = 2000) /\
   ((ey <= 5)%Z -> gain = 12) /\ ((height - 5 <= ey)%Z -> gain = 0) /\
   (forall f, f <> MidFreq -> f <> MidGain ->
              floatValue (snd r) f = floatValue p f) /\
   boolValue (snd r) = boolValue p) /\
  ((width <= 10 \/ height <= 10)%Z -> r = (pad, p)).
Proof.
  intros Hpad r. split.
  - intros Hw Hh x y freq gain.
    destruct (updatePosition_values width height ex ey pad p Hpad Hw Hh)
      as [_ [_ [_ [P1 [P2 [P3 P4]]]]]].
    fold r x y in P1, P2, P3, P4.
    unfold freq, gain, getRawParameterValue, ParamIDs.midFreq,
      ParamIDs.midGain.
    rewrite P1, P2.
    destruct (relative_position_edges (width - 10) (ex - 5)) as [Hx [X0 X1]];
      [lia|]. fold x in Hx, X0, X1.
    destruct (relative_position_edges (height - 10) (height - 10 - (ey - 5)))
      as [Hy [Y0 Y1]]; [lia|]. fold y in Hy, Y0, Y1.
    split; [reflexivity|]. split; [reflexivity|].
    split; [apply snap_near; nra|]. split; [apply snap_near; nra|].
    split; [apply snap_result_on_grid; grid|].
    split; [apply snap_result_on_grid; grid|].
    split; [apply snap_bounds; lra|]. split; [apply snap_bounds; lra|].
    split.
    { intros H. rewrite X0 by lia.
      replace (500 + 0 * 1500) with 500 by lra.
      apply snap_on_grid; [lra|lra|grid]. }
    split.
    { intros H. rewrite X1 by lia.
      replace (500 + 1 * 1500) with 2000 by lra.
      apply snap_on_grid; [lra|lra|grid]. }
    split.
    { intros H. rewrite Y1 by lia.
      replace (1 * 12) with 12 by lra.
      apply snap_on_grid; [lra|lra|grid]. }
    split.
    { intros H. rewrite Y0 by lia.
      replace (0 * 12) with 0 by lra.
      apply snap_on_grid; [lra|lra|grid]. }
    split; [exact P3|exact P4].
  - intros H. unfold r, Editor.updatePosition.
    replace (5 * 2)%Z with 10%Z by reflexivity.
    destruct H as [H|H].
    + destruct (Z.leb_spec (Z.max 0 (width - 10)) 0); [reflexivity|lia].
    + destruct (Z.leb_spec (Z.max 0 (width - 10)) 0); [reflexivity|].
      destruct (Z.leb_spec (Z.max 0 (height - 10)) 0); [reflexivity|lia].
Qed.

Lemma newXYPad_attached (p : Parameters) : padAttached (Editor.newXYPad p).
Proof. repeat split; reflexivity. Qed.

Lemma X23_pad_position_sets_freq_and_gain_witness :
  getRawParameterValue
    (snd (Editor.updatePosition 175 100 5 5
            (Editor.newXYPad initialParameters, initialParameters)))
    ParamIDs.midFreq = 500 /\
  getRawParameterValue
    (snd (Editor.updatePosition 175 100 60 40
            (Editor.newXYPad initialParameters, initialParameters)))
    ParamIDs.midFreq = 1000 /\
  getRawParameterValue
    (snd (Editor.updatePosition 175 100 60 40
            (Editor.newXYPad initialParameters, initialParameters)))
    ParamIDs.midGain = 7.33.
Proof.
  destruct pad_example_position as [Ex Ey].
  destruct pad_example_values as [Ef Eg].
  split; [|split].
  - destruct (X23_pad_position_sets_freq_and_gain 175 100 5 5
                (Editor.newXYPad initialParameters) initialParameters
                (newXYPad_attached initialParameters)) as [H _].
    destruct H as [_ [_ [_ [_ [_ [_ [_ [_ [H5 _]]]]]]]]]; [lia|lia|].
    apply H5. lia.
  - destruct (X23_pad_position_sets_freq_and_gain 175 100 60 40
                (Editor.newXYPad initialParameters) initialParameters
                (newXYPad_attached initialParameters)) as [H _].
    destruct H as [H1 _]; [lia|lia|].
    rewrite H1, Ex. exact Ef.
  - destruct (X23_pad_position_sets_freq_and_gain 175 100 60 40
                (Editor.newXYPad initialParameters) initialParameters
                (newXYPad_attached initialParameters)) as [H _].
    destruct H as [_ [H2 _]]; [lia|lia|].
    rewrite H2, Ey. exact Eg.
Defined.

(** X24.  After a mouse event on a pad wider and higher than 10 pixels,
    whose sliders are attached, the dot that [paint] draws is centred at
    the slider values mapped back onto the inner rectangle.  As the sliders
    hold multiples of 0.01, the centre is near the mouse position limited
    to the inner rectangle (5 pixels inside the pad), not on it in general:
    within 0.005/1500 of the inner width horizontally and within 0.005/12
    of the inner height vertically, and inside the inner rectangle. *)
Theorem X24_dot_follows_the_mouse (width height ex ey : Z)
    (pad : Editor.XYPad) (p : Parameters) :
  padAttached pad -> (10 < width)%Z -> (10 < height)%Z ->
  let x := juce.jlimit 0 1 (IZR (ex - 5) / IZR (width - 10)) in
  let y :=
    juce.jlimit 0 1 (IZR (height - 10 - (ey - 5)) / IZR (height - 10)) in
  let dx :=
    (juce.snapToLegalValue 500 2000 (500 + x * 1500) - 500) / 1500
    * (IZR width - 10) + 5 in
  let dy :=
    (12 - juce.snapToLegalValue 0 12 (y * 12)) / 12
    * (IZR height - 10) + 5 in
  Editor.dotCentre width height
    (fst (Editor.updatePosition width height ex ey (pad, p))) =
  Some (dx, dy) /\
  Rabs (dx - juce.jlimit 5 (IZR width - 5) (IZR ex))
  <= 0.005 / 1500 * (IZR width - 10) /\
  Rabs (dy - juce.jlimit 5 (IZR height - 5) (IZR ey))
  <= 0.005 / 12 * (IZR height - 10) /\
  5 <= dx <= IZR width - 5 /\ 5 <= dy <= IZR height - 5.
Proof.
  intros Hpad Hw Hh x y dx dy.
  destruct (updatePosition_values width height ex ey pad p Hpad Hw Hh)
    as [[B1 [B2 [B3 B4]]] [S1 [S2 _]]].
  fold x y in S1, S2.
  assert (Wd : 0 < IZR width - 10).
  { replace (IZR width - 10) with (IZR (width - 10))
      by (rewrite minus_IZR; reflexivity). apply IZR_lt. lia. }
  assert (Hd : 0 < IZR height - 10).
  { replace (IZR height - 10) with (IZR (height - 10))
      by (rewrite minus_IZR; reflexivity). apply IZR_lt. lia. }
  assert (Hx : 0 <= x <= 1) by (apply jlimit_bounds; lra).
  assert (Hy : 0 <= y <= 1) by (apply jlimit_bounds; lra).
  assert (Ix : x * (IZR width - 10) + 5
               = juce.jlimit 5 (IZR width - 5) (IZR ex)).
  { unfold x.
    replace (IZR (width - 10)) with (IZR width - 10)
      by (rewrite minus_IZR; reflexivity).
    replace (IZR (ex - 5)) with (IZR ex - 5)
      by (rewrite minus_IZR; reflexivity).
    rewrite jlimit_unit_scaled by exact Wd.
    rewrite jlimit_shift. f_equal; ring. }
  assert (Iy : (IZR height - 10) - y * (IZR height - 10) + 5
               = juce.jlimit 5 (IZR height - 5) (IZR ey)).
  { unfold y.
    replace (IZR (height - 10)) with (IZR height - 10)
      by (rewrite minus_IZR; reflexivity).
    replace (IZR (height - 10 - (ey - 5)))
      with (IZR height - 10 - (IZR ey - 5))
      by (rewrite !minus_IZR; reflexivity).
    rewrite jlimit_unit_scaled by exact Hd.
    unfold juce.jlimit.
    destruct (Rlt_dec (IZR height - 10 - (IZR ey - 5)) 0);
      destruct (Rlt_dec (IZR ey) 5);
      destruct (Rlt_dec (IZR height - 10)
                  (IZR height - 10 - (IZR ey - 5)));
      destruct (Rlt_dec (IZR height - 5) (IZR ey)); lra. }
  pose proof (snap_near 500 2000 (500 + x * 1500)) as Nf.
  pose proof (snap_near 0 12 (y * 12)) as Ng.
  pose proof (snap_bounds 500 2000 (500 + x * 1500)) as Bf.
  pose proof (snap_bounds 0 12 (y * 12)) as Bg.
  fold dx dy.
  set (F := juce.snapToLegalValue 500 2000 (500 + x * 1500)) in *.
  set (G := juce.snapToLegalValue 0 12 (y * 12)) in *.
  apply Rabs_le_between in Nf; [|lra|nra].
  apply Rabs_le_between in Ng; [|lra|nra].
  specialize (Bf ltac:(lra)). specialize (Bg ltac:(lra)).
  rewrite <- Ix, <- Iy.
  split.
  { unfold Editor.dotCentre.
    destruct (Z.leb_spec width 0); [lia|].
    destruct (Z.leb_spec height 0); [lia|].
    cbn [orb]. cbv zeta.
    rewrite S1, S2, B1, B2, B3, B4.
    cbn [minValue maxValue createParameterLayout].
    unfold dx, dy. f_equal. f_equal.
    - replace (2000 - 500) with 1500 by lra. reflexivity.
    - replace (12 - 0) with 12 by lra. reflexivity. }
  assert (Ex : dx - (x * (IZR width - 10) + 5)
               = (F - (500 + x * 1500)) / 1500 * (IZR width - 10))
    by (unfold dx; lra).
  assert (Ey : dy - ((IZR height - 10) - y * (IZR height - 10) + 5)
               = - ((G - y * 12) / 12 * (IZR height - 10)))
    by (unfold dy; lra).
  assert (Ax : 0 <= (F - 500) / 1500 <= 1) by lra.
  assert (Ay : 0 <= (12 - G) / 12 <= 1) by lra.
  split; [|split; [|split]].
  - rewrite Ex. apply Rabs_le.
    set (d := (F - (500 + x * 1500)) / 1500).
    assert (Hdl : - (0.005 / 1500) <= d <= 0.005 / 1500) by (unfold d; lra).
    nra.
  - rewrite Ey. apply Rabs_le.
    set (d := (G - y * 12) / 12).
    assert (Hdl : - (0.005 / 12) <= d <= 0.005 / 12) by (unfold d; lra).
    nra.
  - unfold dx. nra.
  - unfold dy. nra.
Qed.

Lemma X24_dot_follows_the_mouse_witness :
  Editor.dotCentre 175 100
    (fst (Editor.updatePosition 175 100 60 40
            (Editor.newXYPad initialParameters, initialParameters))) =
  Some (60, 40.025) /\
  Rabs (40.025 - juce.jlimit 5 (IZR 100 - 5) (IZR 40))
  <= 0.005 / 12 * (IZR 100 - 10).
Proof.
  destruct pad_example_position as [Ex Ey].
  destruct pad_example_values as [Ef Eg].
  destruct (X24_dot_follows_the_mouse 175 100 60 40
              (Editor.newXYPad initialParameters) initialParameters
              (newXYPad_attached initialParameters))
    as [H1 [_ [H3 _]]]; [lia|lia|].
  rewrite Ex, Ey, Ef, Eg in H1. rewrite Ey, Eg in H3.
  replace ((1000 - 500) / 1500 * (175 - 10) + 5) with 60 in H1 by lra.
  replace ((12 - 7.33) / 12 * (100 - 10) + 5) with 40.025 in H1, H3 by lra.
  split; [exact H1|exact H3].
Defined.

(** *** Layout and drawing *)

Lemma intersects_false (ax ay aw ah bx by_ bw bh : Z) :
  (bx + bw <= ax \/ ax + aw <= bx \/ by_ + bh <= ay \/ ay + ah <= by_)%Z ->
  Editor.intersects (ax, ay, aw, ah) (bx, by_, bw, bh) = false.
Proof.
  intros H. unfold Editor.intersects.
  destruct (Z.ltb_spec ax (bx + bw)); destruct (Z.ltb_spec bx (ax + aw));
    destruct (Z.ltb_spec ay (by_ + bh)); destruct (Z.ltb_spec by_ (ay + ah));
    try reflexivity; lia.
Qed.

Lemma intersects_true (ax ay aw ah bx by_ bw bh : Z) :
  (ax < bx + bw /\ bx < ax + aw /\ ay < by_ + bh /\ by_ < ay + ah)%Z ->
  Editor.intersects (ax, ay, aw, ah) (bx, by_, bw, bh) = true.
Proof.
  intros H. unfold Editor.intersects.
  destruct (Z.ltb_spec ax (bx + bw)); destruct (Z.ltb_spec bx (ax + aw));
    destruct (Z.ltb_spec ay (by_ + bh)); destruct (Z.ltb_spec by_ (ay + ah));
    try reflexivity; lia.
Qed.

Lemma grid_position (i : nat) :
  exists r c : nat,
    Nat.div i 3 = r /\ Nat.modulo i 3 = c /\ (i = 3 * r + c)%nat /\
    (c < 3)%nat.
Proof.
  exists (Nat.div i 3), (Nat.modulo i 3).
  split; [reflexivity|]. split; [reflexivity|].
  split; [apply Nat.div_mod_eq|apply Nat.mod_upper_bound; discriminate].
Qed.

(** X25.  [resized] lays the sliders out on a grid of three columns on
    which no two sliders overlap and no label overlaps a slider, for any
    number of sliders; the labels of two sliders next to each other in a
    row do overlap (each is 90 pixels wide on a 70 pixel pitch). *)
Theorem X25_slider_grid (i j : nat) :
  (i <> j ->
   Editor.intersects (Editor.sliderBounds i) (Editor.sliderBounds j) = false)
  /\
  Editor.intersects (Editor.labelBounds i) (Editor.sliderBounds j) = false /\
  (Nat.modulo i 3 <> 2%nat ->
   Editor.intersects (Editor.labelBounds i) (Editor.labelBounds (S i))
   = true).
Proof.
  destruct (grid_position i) as [ri [ci [Ri [Ci [Ei Hi]]]]].
  destruct (grid_position j) as [rj [cj [Rj [Cj [Ej Hj]]]]].
  unfold Editor.sliderBounds, Editor.labelBounds. cbv zeta.
  rewrite Ri, Ci, Rj, Cj.
  split; [|split].
  - intros Hne. apply intersects_false.
    assert (H : ri <> rj \/ ci <> cj) by lia.
    destruct H as [H|H]; lia.
  - apply intersects_false. lia.
  - intros Hc.
    destruct (grid_position (S i)) as [rs [cs [Rs [Cs [Es Hs]]]]].
    rewrite Rs, Cs.
    assert (Hrow : rs = ri /\ cs = S ci) by lia.
    destruct Hrow as [-> ->].
    apply intersects_true. lia.
Qed.

Lemma X25_slider_grid_witness :
  Editor.intersects (Editor.sliderBounds 0) (Editor.sliderBounds 4) = false
  /\
  Editor.intersects (Editor.labelBounds 0) (Editor.labelBounds 1) = true.
Proof.
  destruct (X25_slider_grid 0 4) as [H _].
  destruct (X25_slider_grid 0 1) as [_ [_ H']].
  split; [apply H; discriminate|apply H'; discriminate].
Defined.

(** X26.  In an editor at least 190 pixels wide the three distortion
    buttons lie inside the width, 60 pixels wide with gaps of 5 pixels, and
    are centred: the free space on the right equals the free space on the
    left or exceeds it by one pixel. *)
Theorem X26_distortion_buttons_centred (width : Z) :
  (190 <= width)%Z ->
  let '(x0, _, w0, _) := Editor.distortionButtonBounds width 0 in
  let '(x1, _, w1, _) := Editor.distortionButtonBounds width 1 in
  let '(x2, _, w2, _) := Editor.distortionButtonBounds width 2 in
  (0 <= x0 /\ x1 = x0 + w0 + 5 /\ x2 = x1 + w1 + 5 /\ x2 + w2 <= width /\
   0 <= (width - (x2 + w2)) - x0 <= 1)%Z.
Proof.
  intros Hw. unfold Editor.distortionButtonBounds. cbv zeta.
  replace (3 * 60 + 2 * 5)%Z with 190%Z by reflexivity.
  rewrite Z.quot_div_nonneg by lia.
  pose proof (Z.div_mod (width - 190) 2 ltac:(lia)) as Hdm.
  pose proof (Z.mod_pos_bound (width - 190) 2 ltac:(lia)) as Hm.
  lia.
Qed.

Lemma X26_distortion_buttons_centred_witness :
  (190 <= 600)%Z /\
  let '(x0, _, w0, _) := Editor.distortionButtonBounds 600 0 in
  let '(x1, _, w1, _) := Editor.distortionButtonBounds 600 1 in
  let '(x2, _, w2, _) := Editor.distortionButtonBounds 600 2 in
  (0 <= x0 /\ x1 = x0 + w0 + 5 /\ x2 = x1 + w1 + 5 /\ x2 + w2 <= 600 /\
   0 <= (600 - (x2 + w2)) - x0 <= 1)%Z.
Proof.
  split; [lia|]. apply (X26_distortion_buttons_centred 600). lia.
Defined.

Lemma cos_quarter_back (a : R) : cos (a - PI / 2) = sin a.
Proof. rewrite cos_minus, cos_PI2, sin_PI2. ring. Qed.

Lemma sin_quarter_back (a : R) : sin (a - PI / 2) = - cos a.
Proof. rewrite sin_minus, cos_PI2, sin_PI2. ring. Qed.

(** X27.  The thumb of a rotary slider is drawn centred on the circle
    around the centre of the knob: at angle a its centre is
    (cx + r sin a, cy - r cos a), at distance r from (cx, cy), where the
    knob rectangle is the slider rectangle reduced by 4 pixels and r half
    its smaller side; the angle runs linearly from the start angle at
    slider position 0 to the end angle at position 1 and stays between
    them. *)
Theorem X27_rotary_thumb_on_the_circle (x y width height : Z)
    (sliderPos startAngle endAngle : R) :
  let w := Rmax 0 (IZR width - 8) in
  let h := Rmax 0 (IZR height - 8) in
  let cx := IZR x + 4 + w / 2 in
  let cy := IZR y + 4 + h / 2 in
  let r := Rmin w h / 2 in
  let a := Editor.thumbAngle sliderPos startAngle endAngle in
  let t := Editor.thumbCentre x y width height sliderPos startAngle endAngle in
  t = (cx + r * sin a, cy - r * cos a) /\
  (fst t - cx) * (fst t - cx) + (snd t - cy) * (snd t - cy) = r * r /\
  Editor.thumbAngle 0 startAngle endAngle = startAngle /\
  Editor.thumbAngle 1 startAngle endAngle = endAngle /\
  (0 <= sliderPos <= 1 -> startAngle <= endAngle ->
   startAngle <= a <= endAngle).
Proof.
  intros w h cx cy r a t.
  assert (Ht : t = (cx + r * sin a, cy - r * cos a)).
  { unfold t, Editor.thumbCentre. cbv zeta. fold a.
    rewrite cos_quarter_back, sin_quarter_back.
    replace (4 * 2) with 8 by ring. fold w h.
    unfold cx, cy, r. f_equal; lra. }
  split; [exact Ht|]. split; [|split; [|split]].
  - rewrite Ht. cbn [fst snd].
    pose proof (sin2_cos2 a) as Hs. unfold Rsqr in Hs.
    replace ((cx + r * sin a - cx) * (cx + r * sin a - cx)
             + (cy - r * cos a - cy) * (cy - r * cos a - cy))
      with (r * r * (sin a * sin a + cos a * cos a)) by ring.
    rewrite Hs. ring.
  - unfold Editor.thumbAngle. ring.
  - unfold Editor.thumbAngle. ring.
  - intros Hp Hse. unfold a, Editor.thumbAngle. split; nra.
Qed.

Lemma X27_rotary_thumb_on_the_circle_witness :
  0 <= Editor.thumbAngle 0.5 0 PI <= PI.
Proof.
  destruct (X27_rotary_thumb_on_the_circle 0 0 50 70 0.5 0 PI)
    as [_ [_ [_ [_ H]]]].
  pose proof PI_RGT_0. apply H; lra.
Defined.
